(** * Offline outbox reconciliation: [src/offline/sync.ts]

    A shallow embedding of [normalizeTask] and [syncNow], the replay loop
    that drains the pending-operation queue against the REST API and folds
    the answers back into the local stores.

    - JavaScript values are the JSON documents the API client hands back,
      plus [undefined] for an absent property.
    - [syncNow] is an [async] function whose awaits are strictly sequential,
      so it is modelled by explicit state passing: a small state-and-exception
      monad [Sync] over a [World] that holds the three IndexedDB tables, the
      state of the remote server and the list of observable events.
    - The IndexedDB helpers of [src/offline/db.ts] are imported by the source
      but are not part of it; they are modelled from the specification. *)

From stdpp Require Import base strings list gmap pretty sorting.
From Stdlib Require Import ZArith Lia Ascii.

Open Scope Z_scope.

Set Warnings "-register-all".

(* ================================================================== *)
(** ** JavaScript values *)
(* ================================================================== *)

(** JSON data as it arrives in [res.data], with [JUndefined] for a missing
    property.  A number is written as the integer numeral [n] of the
    document (identifiers, timestamps, minutes); the value the engine holds
    for it is the double nearest to [n], see [round53].  Objects are plain
    records, given by the list of their own properties. *)
Inductive JsValue : Type :=
| JUndefined
| JNull
| JBool (b : bool)
| JNum (n : Z)
| JStr (s : string)
| JArr (xs : list JsValue)
| JObj (fields : list (string * JsValue)).

Abbreviation JsObject := (list (string * JsValue)).

(** [o.k] on an object literal: the value of the first binding of [k],
    [undefined] when there is none. *)
Fixpoint field (k : string) (fs : JsObject) : JsValue :=
  match fs with
  | [] => JUndefined
  | (k', v) :: rest => if decide (k = k') then v else field k rest
  end.

(** [x?.k] for the property names the source reads ([_id], [id], [title],
    [description], [status], [clienteId], [createdAt], [task]): none of them
    lives on a prototype, so every non-object yields [undefined]. *)
Definition opt_get (x : JsValue) (k : string) : JsValue :=
  match x with
  | JObj fs => field k fs
  | _ => JUndefined
  end.

(** [a ?? b] *)
Definition nullish (a : JsValue) : bool :=
  match a with
  | JUndefined | JNull => true
  | _ => false
  end.

Definition coalesce (a b : JsValue) : JsValue :=
  if nullish a then b else a.

(* ================================================================== *)
(** ** Numbers *)
(* ================================================================== *)

(** [a / b] rounded to the nearest integer, a tie going to the even one. *)
Definition round_half_even (a b : Z) : Z :=
  let q := a `div` b in
  let r := a `mod` b in
  if (b <? 2 * r) || ((2 * r =? b) && Z.odd q) then q + 1 else q.

(** The double nearest to the integer [0 <= a]: below [2^53] every integer
    is a double; above, the 53 leading bits are kept and the rest is rounded
    to nearest, ties to even (IEEE 754 binary64).  A result of [2^1024] or
    more stands for [Infinity]. *)
Definition round53 (a : Z) : Z :=
  let e := Z.log2 a - 52 in
  if e <=? 0 then a else round_half_even a (2 ^ e) * 2 ^ e.

(** The Number an integer numeral denotes, and whether it is infinite. *)
Definition Number_of (n : Z) : Z := Z.sgn n * round53 (Z.abs n).

Definition is_infinite (x : Z) : bool := 2 ^ 1024 <=? Z.abs x.

(** [a * b] and [a + b] on Numbers: the exact result, rounded once.  An
    infinite term makes the sum infinite; the sum of two infinities of
    opposite sign, [NaN], is not represented. *)
Definition Number_mul (a b : Z) : Z := Number_of (Number_of a * Number_of b).

Definition Number_add (a b : Z) : Z :=
  let x := Number_of a in
  let y := Number_of b in
  if is_infinite x then x
  else if is_infinite y then y
  else Number_of (x + y).

(** The digits of [Number::toString]: the shortest decimal [s * 10^e] that
    still rounds to the double [x], and the one nearest to [x] when two
    of that length do.  Candidates are tried from the fewest digits on;
    among the multiples of [10^e] only the two around [x] can round
    to it. *)
Fixpoint shortest (x : Z) (e : nat) : Z * Z :=
  match e with
  | O => (x, 0)
  | S e' =>
      let p := 10 ^ Z.of_nat e in
      let lo := x `div` p in
      let hi := lo + 1 in
      let ok_lo := round53 (lo * p) =? x in
      let ok_hi := round53 (hi * p) =? x in
      if ok_lo && (negb ok_hi || (x - lo * p <=? hi * p - x))
      then (lo, Z.of_nat e)
      else if ok_hi then (hi, Z.of_nat e)
      else shortest x e'
  end.

(** [d.ddde+n], the form [Number::toString] uses from [10^21] on. *)
Definition exponent_form (s e : Z) : string :=
  let ds := pretty s in
  match ds with
  | EmptyString => ""
  | String d rest =>
      String d (if decide (rest = "") then "" else "." +:+ rest)
      +:+ "e+" +:+ pretty (Z.of_nat (String.length ds) + e - 1)
  end.

(** [String(n)] for the Number the numeral [n] denotes
    ([Number::toString], radix 10). *)
Definition Number_toString (n : Z) : string :=
  if n =? 0 then "0"
  else
    let sign := if n <? 0 then "-" else "" in
    let x := round53 (Z.abs n) in
    if is_infinite x then sign +:+ "Infinity"
    else
      let '(s, e) := shortest x (String.length (pretty x)) in
      if s * 10 ^ e <? 10 ^ 21 then sign +:+ pretty (s * 10 ^ e)
      else sign +:+ exponent_form s e.

(** [Math.floor(x / d)] for a finite integer-valued double [x] and
    [0 < d]: the quotient is first rounded to a double, with 53 significant
    bits of its own, and then floored. *)
Definition floor_quotient (x d : Z) : Z :=
  let a := Z.abs x in
  let l0 := Z.log2 a - Z.log2 d in
  let l := if a * 2 ^ Z.log2 d <? d * 2 ^ Z.log2 a then l0 - 1 else l0 in
  let e := l - 52 in
  if 0 <=? e
  then Z.sgn x * round_half_even a (d * 2 ^ e) * 2 ^ e
  else (Z.sgn x * round_half_even (a * 2 ^ (- e)) d) `div` 2 ^ (- e).

(* ================================================================== *)
(** ** Conversion to string *)
(* ================================================================== *)

(** [k in o] for an own property. *)
Definition has_key (k : string) (fs : JsObject) : bool :=
  bool_decide (k ∈ fs.*1).

(** [String(v)]; [None] stands for the [TypeError] the conversion throws.
    A plain object is converted by [Object.prototype.toString] unless it
    has a property of its own called [toString]: that one hides the
    inherited method, is not callable (no value of a document is), and
    [valueOf] yields no primitive, so the conversion fails.  An array is
    joined with commas, [undefined] and [null] elements giving the empty
    string and every other element being converted in turn. *)
Fixpoint js_String (v : JsValue) : option string :=
  match v with
  | JUndefined => Some "undefined"
  | JNull => Some "null"
  | JBool true => Some "true"
  | JBool false => Some "false"
  | JNum n => Some (Number_toString n)
  | JStr s => Some s
  | JArr xs =>
      (fix join (l : list JsValue) : option string :=
         match l with
         | [] => Some ""
         | x :: r =>
             match (if nullish x then Some "" else js_String x) with
             | None => None
             | Some sx =>
                 match r with
                 | [] => Some sx
                 | _ =>
                     match join r with
                     | None => None
                     | Some sr => Some (sx +:+ "," +:+ sr)
                     end
                 end
             end
         end) xs
  | JObj fs => if has_key "toString" fs then None else Some "[object Object]"
  end.

(** The values [String()] has no string for: an object with a [toString]
    of its own, and an array with such an element, at any depth of
    arrays. *)
Fixpoint unconvertible (v : JsValue) : bool :=
  match v with
  | JObj fs => has_key "toString" fs
  | JArr xs => existsb unconvertible xs
  | _ => false
  end.

(** [v === s] against a string literal *)
Definition strict_eq_str (v : JsValue) (s : string) : bool :=
  match v with
  | JStr s' => bool_decide (s' = s)
  | _ => false
  end.

(** [!s] for a string: only the empty string is falsy. *)
Definition falsy (s : string) : bool := bool_decide (s = "").

(** [!v] for a value that is a string or [undefined]. *)
Definition falsy_opt (v : option string) : bool :=
  match v with
  | None => true
  | Some s => falsy s
  end.

(** A string-or-undefined value that passed an [if (!v) ...] guard. *)
Definition truthy_id (v : option string) : option string :=
  if falsy_opt v then None else v.

(* ================================================================== *)
(** ** normalizeTask *)
(* ================================================================== *)

(** The object literal [normalizeTask] returns. *)
Record Task : Type := mkTask {
  _id : string;
  title : string;
  description : JsValue;
  status : JsValue;
  task_clienteId : JsValue;
  createdAt : JsValue
}.

Definition sin_titulo : string := "(sin título)".

(** [normalizeTask] (lines 14-28); [None] when one of the two [String]
    conversions throws. *)
Definition normalizeTask (x : JsValue) : option Task :=
  id ← js_String (coalesce (opt_get x "_id") (opt_get x "id"));
  ti ← js_String (coalesce (opt_get x "title") (JStr sin_titulo));
  Some
    {| _id := id;
       title := ti;
       description := coalesce (opt_get x "description") (JStr "");
       status :=
         if strict_eq_str (opt_get x "status") "Completada"
            || strict_eq_str (opt_get x "status") "En Progreso"
            || strict_eq_str (opt_get x "status") "Pendiente"
         then opt_get x "status"
         else JStr "Pendiente";
       task_clienteId := opt_get x "clienteId";
       createdAt := opt_get x "createdAt" |}.

(** The task as the plain object that is handed to the cache. *)
Definition task_obj (t : Task) : JsValue :=
  JObj [("_id", JStr (_id t));
        ("title", JStr (title t));
        ("description", description t);
        ("status", status t);
        ("clienteId", task_clienteId t);
        ("createdAt", createdAt t)].

(** The closed status enumeration of the [Task] type. *)
Inductive Status : Type := Pendiente | EnProgreso | Completada.

Definition status_of (v : JsValue) : option Status :=
  match v with
  | JStr s =>
      if decide (s = "Pendiente") then Some Pendiente
      else if decide (s = "En Progreso") then Some EnProgreso
      else if decide (s = "Completada") then Some Completada
      else None
  | _ => None
  end.

(* ================================================================== *)
(** ** The outbox records and the three stores *)
(* ================================================================== *)

Inductive OpKind : Type := OpCreate | OpUpdate | OpDelete.

Global Instance OpKind_eq_dec : EqDecision OpKind.
Proof. solve_decision. Defined.

(** A queued operation, as the dashboard enqueues it: [op_id] is the
    record's own [_id], [data] is absent on delete records and [serverId]
    is an optional explicit server reference. *)
Record PendingOp : Type := mkOp {
  op_id : string;
  op : OpKind;
  clienteId : string;
  serverId : option string;
  data : option JsObject;
  ts : Z
}.

(** What one pass can be observed to do: the per-record log line that opens
    every loop iteration, the three kinds of network call (with URL and
    body) and the completion event on [window]. *)
Inductive Event : Type :=
| Processing (o : PendingOp)
| Post (url : string) (body : JsValue)
| Put (url : string) (body : JsValue)
| Delete (url : string)
| SyncComplete.

(** The remote API client: a state machine answering each call with
    [Some data] (the promise resolves with [res.data]) or [None] (the
    promise rejects). *)
Record Api : Type := mkApi {
  srv : Type;
  api_post : string -> JsValue -> srv -> option JsValue * srv;
  api_put : string -> JsValue -> srv -> option JsValue * srv;
  api_delete : string -> srv -> option JsValue * srv
}.

Record World (S : Type) : Type := mkWorld {
  outbox : list PendingOp;
  mappings : gmap string string;
  tasks : gmap string JsValue;
  server : S;
  trace : list Event
}.

Arguments mkWorld {S} _ _ _ _ _.
Arguments outbox {S} _.
Arguments mappings {S} _.
Arguments tasks {S} _.
Arguments server {S} _.
Arguments trace {S} _.

(* ================================================================== *)
(** ** The [Sync] monad: state and exceptions *)
(* ================================================================== *)

Inductive Exn : Type :=
| TypeError          (* a property of [undefined], a failed [String()] *)
| Rejected           (* the API promise rejected *)
| InvalidServerId.   (* [new Error("... No se obtuvo un serverId válido")] *)

Inductive Res (A : Type) : Type :=
| Ok (a : A)
| Thrown (e : Exn).

Arguments Ok {A} _.
Arguments Thrown {A} _.

Definition Sync (S A : Type) : Type := World S -> Res A * World S.

Definition sync_ret {S A} (a : A) : Sync S A := fun w => (Ok a, w).

Definition sync_bind {S A B} (m : Sync S A) (k : A -> Sync S B) : Sync S B :=
  fun w =>
    match m w with
    | (Ok a, w') => k a w'
    | (Thrown e, w') => (Thrown e, w')
    end.

Definition throw {S A} (e : Exn) : Sync S A := fun w => (Thrown e, w).

(** A conversion that may throw its [TypeError], inside an [async]
    function. *)
Definition js_try {S A} (r : option A) : Sync S A :=
  match r with
  | Some a => sync_ret a
  | None => throw TypeError
  end.

Notation "x <~ m ;; k" := (sync_bind m (fun x => k))
  (at level 100, m at next level, right associativity).
Notation "m ;;; k" := (sync_bind m (fun _ => k))
  (at level 100, right associativity).

Definition emit {S} (e : Event) : Sync S unit :=
  fun w => (Ok tt, mkWorld (outbox w) (mappings w) (tasks w) (server w) (trace w ++ [e])).

Definition update_world {S} (f : World S -> World S) : Sync S unit :=
  fun w => (Ok tt, f w).

Definition read_world {S A} (f : World S -> A) : Sync S A :=
  fun w => (Ok (f w), w).

(* ================================================================== *)
(** ** The IndexedDB helpers of [./db] *)
(* ================================================================== *)

(** Modelled from the spec: [getOutbox] of [src/offline/db.ts] is not part
    of the sources.  "listAll() returns every currently stored Pending
    Operation (order not guaranteed by storage; caller must sort)": the
    table is a list in storage order, and reading it changes nothing. *)
Definition getOutbox {S} (w : World S) : list PendingOp :=
  outbox w.

(** Modelled from the spec: [removePendingOp] of [src/offline/db.ts].
    "remove(recordId) deletes one record by id; removing a non-existent id
    is a no-op, not an error"; the record id is the sole key of the table. *)
Definition removePendingOp {S} (id : string) : Sync S unit :=
  update_world (fun w =>
    mkWorld (filter (fun o => op_id o <> id) (outbox w))
            (mappings w) (tasks w) (server w) (trace w)).

(** Modelled from the spec: [setMapping] of [src/offline/db.ts].
    "set(clientRef, serverRef) stores the association; calling it twice for
    the same clientRef overwrites". *)
Definition setMapping {S} (clientRef serverRef : string) : Sync S unit :=
  update_world (fun w =>
    mkWorld (outbox w) (<[clientRef := serverRef]> (mappings w))
            (tasks w) (server w) (trace w)).

(** Modelled from the spec: [getMapping] of [src/offline/db.ts].
    "get(clientRef) returns the serverRef or not found"; not found is
    [undefined], here [None]. *)
Definition getMapping {S} (clientRef : string) : Sync S (option string) :=
  read_world (fun w => mappings w !! clientRef).

(** The key of a cached entity: its [_id], a string. *)
Definition entity_key (e : JsValue) : option string :=
  match opt_get e "_id" with
  | JStr k => Some k
  | _ => None
  end.

(** Modelled from the spec: [putTaskLocal] of [src/offline/db.ts].
    "put(entity) inserts or overwrites by entity.id".  An entity without a
    string [_id] has no key and is not stored; [syncNow] never passes one. *)
Definition putTaskLocal {S} (e : JsValue) : Sync S unit :=
  update_world (fun w =>
    match entity_key e with
    | Some k =>
        mkWorld (outbox w) (mappings w) (<[k := e]> (tasks w))
                (server w) (trace w)
    | None => w
    end).

(** Modelled from the spec: [removeTaskLocal] of [src/offline/db.ts].
    "remove(id) deletes by id, no-op if absent". *)
Definition removeTaskLocal {S} (id : string) : Sync S unit :=
  update_world (fun w =>
    mkWorld (outbox w) (mappings w) (base.delete id (tasks w))
            (server w) (trace w)).

(* ================================================================== *)
(** ** Array.prototype.sort with [(a, b) => a.ts - b.ts] *)
(* ================================================================== *)

(** The sort is stable: a record goes in front of the first record whose
    timestamp is not smaller, and records are inserted last to first. *)
Fixpoint insert_by_ts (o : PendingOp) (l : list PendingOp) : list PendingOp :=
  match l with
  | [] => [o]
  | x :: rest =>
      if ts o <=? ts x then o :: x :: rest else x :: insert_by_ts o rest
  end.

Fixpoint sort_by_ts (l : list PendingOp) : list PendingOp :=
  match l with
  | [] => []
  | o :: rest => insert_by_ts o (sort_by_ts rest)
  end.

(** [{ ...obj, k: v }] *)
Fixpoint set_field (k : string) (v : JsValue) (fs : JsObject) : JsObject :=
  match fs with
  | [] => [(k, v)]
  | (k', v') :: rest =>
      if decide (k = k') then (k, v) :: rest
      else (k', v') :: set_field k v rest
  end.

(* ================================================================== *)
(** ** syncNow *)
(* ================================================================== *)

Section Reconciler.

Context (api : Api).

Abbreviation W := (World (srv api)).
Abbreviation M := (Sync (srv api)).

(** [await api.post(url, body)]: the call is observed, then the promise
    resolves with the response data or rejects. *)
Definition post (url : string) (body : JsValue) : M JsValue :=
  fun w =>
    let '(r, s') := api_post api url body (server w) in
    let w' := mkWorld (outbox w) (mappings w) (tasks w) s'
                      (trace w ++ [Post url body]) in
    match r with
    | Some d => (Ok d, w')
    | None => (Thrown Rejected, w')
    end.

Definition put (url : string) (body : JsValue) : M JsValue :=
  fun w =>
    let '(r, s') := api_put api url body (server w) in
    let w' := mkWorld (outbox w) (mappings w) (tasks w) s'
                      (trace w ++ [Put url body]) in
    match r with
    | Some d => (Ok d, w')
    | None => (Thrown Rejected, w')
    end.

Definition del (url : string) : M JsValue :=
  fun w =>
    let '(r, s') := api_delete api url (server w) in
    let w' := mkWorld (outbox w) (mappings w) (tasks w) s'
                      (trace w ++ [Delete url]) in
    match r with
    | Some d => (Ok d, w')
    | None => (Thrown Rejected, w')
    end.

(** [op.data], about to be dereferenced: a [TypeError] when it is absent. *)
Definition op_data (o : PendingOp) : M JsObject :=
  match data o with
  | Some d => sync_ret d
  | None => throw TypeError
  end.

(** The body both replay requests send. *)
Definition request_body (d : JsObject) : JsValue :=
  JObj [("title", field "title" d);
        ("description", field "description" d);
        ("status", field "status" d)].

(** [res.data?.task ?? res.data] *)
Definition response_task (res_data : JsValue) : JsValue :=
  coalesce (opt_get res_data "task") res_data.

(** The body of the first loop (lines 54-81). *)
Definition process_create (o : PendingOp) : M unit :=
  emit (Processing o) ;;;
  d <~ op_data o ;;
  res <~ post "/tasks" (request_body d) ;;
  serverTask <~ js_try (normalizeTask (response_task res)) ;;
  let serverId := _id serverTask in
  if falsy serverId || bool_decide (serverId = clienteId o)
  then throw InvalidServerId
  else
    setMapping (clienteId o) serverId ;;;
    removeTaskLocal (clienteId o) ;;;
    putTaskLocal (task_obj serverTask) ;;;
    removePendingOp (op_id o).

(** The body of the second loop (lines 93-116). *)
Definition process_update (o : PendingOp) : M unit :=
  emit (Processing o) ;;;
  m <~ getMapping (clienteId o) ;;
  match truthy_id m with
  | None => removePendingOp (op_id o)
  | Some serverId =>
      d <~ op_data o ;;
      put ("/tasks/" +:+ serverId) (request_body d) ;;;
      putTaskLocal (JObj (set_field "_id" (JStr serverId) d)) ;;;
      removePendingOp (op_id o)
  end.

(** Lines 131-135: the explicit reference first, the mapping only when
    there is none and the record carries a client id. *)
Definition resolve_delete (o : PendingOp) : M (option string) :=
  if falsy_opt (serverId o) && negb (falsy (clienteId o))
  then getMapping (clienteId o)
  else sync_ret (serverId o).

(** The body of the third loop (lines 128-151). *)
Definition process_delete (o : PendingOp) : M unit :=
  emit (Processing o) ;;;
  r <~ resolve_delete o ;;
  match truthy_id r with
  | None => removePendingOp (op_id o)
  | Some serverId =>
      del ("/tasks/" +:+ serverId) ;;;
      removeTaskLocal serverId ;;;
      removePendingOp (op_id o)
  end.

(** [for (const op of ops) { try { body } catch (err) { return; } }]:
    the loop hands back the record and the exception that ended the pass,
    or nothing when it ran to the end. *)
Fixpoint for_each (body : PendingOp -> M unit) (ops : list PendingOp)
    (w : W) : option (PendingOp * Exn) * W :=
  match ops with
  | [] => (None, w)
  | o :: rest =>
      match body o w with
      | (Ok _, w') => for_each body rest w'
      | (Thrown e, w') => (Some (o, e), w')
      end
  end.

(** The [return] statement through which a pass leaves [syncNow]. *)
Inductive Exit : Type :=
| ExitOffline                              (* line 33 *)
| ExitNothingPending                       (* line 39 *)
| ExitFailed (o : PendingOp) (e : Exn)     (* lines 84, 119, 154 *)
| ExitCompleted.                           (* end of the function *)

Definition by_kind (k : OpKind) (ops : list PendingOp) : list PendingOp :=
  filter (fun o => op o = k) ops.

Definition syncNow (online : bool) (w : W) : Exit * W :=
  if negb online then (ExitOffline, w)
  else
    let ops := sort_by_ts (getOutbox w) in
    match ops with
    | [] => (ExitNothingPending, w)
    | _ =>
        let creates := by_kind OpCreate ops in
        let updates := by_kind OpUpdate ops in
        let deletes := by_kind OpDelete ops in
        match for_each process_create creates w with
        | (Some (o, e), w1) => (ExitFailed o e, w1)
        | (None, w1) =>
            match for_each process_update updates w1 with
            | (Some (o, e), w2) => (ExitFailed o e, w2)
            | (None, w2) =>
                match for_each process_delete deletes w2 with
                | (Some (o, e), w3) => (ExitFailed o e, w3)
                | (None, w3) =>
                    (ExitCompleted,
                     mkWorld (outbox w3) (mappings w3) (tasks w3) (server w3)
                             (trace w3 ++ [SyncComplete]))
                end
            end
        end
    end.

End Reconciler.

(* ================================================================== *)
(** ** Reading a trace *)
(* ================================================================== *)

(** The kind of record a network call belongs to. *)
Definition call_kind (e : Event) : option OpKind :=
  match e with
  | Post _ _ => Some OpCreate
  | Put _ _ => Some OpUpdate
  | Delete _ => Some OpDelete
  | Processing _ | SyncComplete => None
  end.

Definition is_call (e : Event) : bool :=
  match call_kind e with
  | Some _ => true
  | None => false
  end.

(** The network calls of a trace, in the order they were made. *)
Definition net_calls (tr : list Event) : list Event :=
  List.filter is_call tr.

(** The records a trace shows being taken up, in order. *)
Definition processed (tr : list Event) : list PendingOp :=
  omap (fun e => match e with Processing o => Some o | _ => None end) tr.

(** What was appended to the trace between two worlds. *)
Definition pass_events {S} (w w' : World S) : list Event :=
  drop (length (trace w)) (trace w').

(** The order in which a pass takes up the records of an outbox. *)
Definition replay_order (l : list PendingOp) : list PendingOp :=
  by_kind OpCreate (sort_by_ts l)
  ++ by_kind OpUpdate (sort_by_ts l)
  ++ by_kind OpDelete (sort_by_ts l).

(** The outbox once the records with these ids were removed. *)
Definition remove_ids (ids : list string) (l : list PendingOp) : list PendingOp :=
  filter (fun x => op_id x ∉ ids) l.

Definition ts_le (a b : PendingOp) : Prop := ts a <= ts b.

(** Lines 131-137 as a function of the mapping table: the id a delete
    record resolves to, if any. *)
Definition delete_target (m : gmap string string) (o : PendingOp)
    : option string :=
  truthy_id
    (if falsy_opt (serverId o) && negb (falsy (clienteId o))
     then m !! clienteId o
     else serverId o).

(** The call a record may give rise to: a create posts the three payload
    fields to the collection, an update puts them to a task URL, a delete
    addresses a task URL. *)
Definition call_of (o : PendingOp) (c : Event) : Prop :=
  match op o, c with
  | OpCreate, Post url body =>
      url = "/tasks" /\ exists d, data o = Some d /\ body = request_body d
  | OpUpdate, Put url body =>
      (exists id, id <> "" /\ url = "/tasks/" +:+ id)
      /\ exists d, data o = Some d /\ body = request_body d
  | OpDelete, Delete url => exists id, id <> "" /\ url = "/tasks/" +:+ id
  | _, _ => False
  end.

(** The shape of the events of a run of records: every record is announced
    and then makes at most one call, of its own kind. *)
Inductive replay : list PendingOp -> list Event -> Prop :=
| replay_nil : replay [] []
| replay_quiet o os evs :
    replay os evs -> replay (o :: os) (Processing o :: evs)
| replay_call o c os evs :
    call_of o c -> replay os evs ->
    replay (o :: os) (Processing o :: c :: evs).

(* ================================================================== *)
(** ** A scripted server and sample records *)
(* ================================================================== *)

(** A server that answers the calls it receives, whatever they are, with
    the next scripted reply, and rejects once the script is used up. *)
Definition next_reply (s : list (option JsValue))
    : option JsValue * list (option JsValue) :=
  match s with
  | [] => (None, [])
  | r :: s' => (r, s')
  end.

Definition script_api : Api :=
  {| srv := list (option JsValue);
     api_post := fun _ _ => next_reply;
     api_put := fun _ _ => next_reply;
     api_delete := fun _ => next_reply |}.

Definition create_A : PendingOp :=
  mkOp "r1" OpCreate "tmp-1" None (Some [("title", JStr "A")]) 1.

Definition create_B : PendingOp :=
  mkOp "r4" OpCreate "tmp-3" None
       (Some [("title", JStr "B"); ("estimatedTime", JNum 30)]) 5.

Definition update_A : PendingOp :=
  mkOp "r2" OpUpdate "tmp-1" None
       (Some [("_id", JStr "tmp-1"); ("title", JStr "A2")]) 2.

Definition delete_orphan : PendingOp :=
  mkOp "r3" OpDelete "tmp-2" None None 0.

Definition delete_explicit : PendingOp :=
  mkOp "r5" OpDelete "tmp-1" (Some "srv-7") None 3.

Definition world_of (ob : list PendingOp) (m : gmap string string)
    (c : gmap string JsValue) (script : list (option JsValue))
    : World (srv script_api) :=
  mkWorld ob m c script [].

(* ================================================================== *)
(** ** Statements about a pass *)
(* ================================================================== *)

(** What the loop relies on in a body run on a record of kind [k]: it
    announces the record and makes at most one call of that kind; on
    success the record has left the outbox; on an exception the three
    stores are as they were. *)
Record body_spec (api : Api) (k : OpKind)
    (body : PendingOp -> Sync (srv api) unit) : Prop := {
  bs_events : forall o (w : World (srv api)), op o = k ->
    exists evs, trace (body o w).2 = trace w ++ evs /\ replay [o] evs;
  bs_ok : forall o (w : World (srv api)) u, (body o w).1 = Ok u ->
    outbox (body o w).2 = filter (fun x => op_id x <> op_id o) (outbox w);
  bs_thrown : forall o (w : World (srv api)) e, (body o w).1 = Thrown e ->
    outbox (body o w).2 = outbox w
    /\ mappings (body o w).2 = mappings w
    /\ tasks (body o w).2 = tasks w
}.

(** A pass runs its three loops to the end, none of them leaving through
    its [catch]. *)
Definition completes_all_phases api (online : bool) (w : World (srv api))
    : Prop :=
  online = true /\ outbox w <> [] /\
  exists w1 w2 w3,
    for_each api (process_create api)
      (by_kind OpCreate (sort_by_ts (outbox w))) w = (None, w1) /\
    for_each api (process_update api)
      (by_kind OpUpdate (sort_by_ts (outbox w))) w1 = (None, w2) /\
    for_each api (process_delete api)
      (by_kind OpDelete (sort_by_ts (outbox w))) w2 = (None, w3).

(** The create postcondition in the specification's words: after a
    successful create the cache entity keyed by the server id carries the
    fields that were submitted. *)
Definition create_effect_as_specified api (o : PendingOp) (w : World (srv api))
    : Prop :=
  forall w' d res t,
    process_create api o w = (Ok (), w') ->
    data o = Some d ->
    (api_post api "/tasks" (request_body d) (server w)).1 = Some res ->
    normalizeTask (response_task res) = Some t ->
    let S := _id t in
    mappings w' !! clienteId o = Some S /\
    tasks w' !! clienteId o = None /\
    (exists ent,
       tasks w' !! S = Some ent /\
       opt_get ent "title" = field "title" d /\
       opt_get ent "description" = field "description" d /\
       opt_get ent "status" = field "status" d) /\
    o ∉ outbox w'.

(* ================================================================== *)
(** ** Sample worlds *)
(* ================================================================== *)

(** The server answers the create of task "A" with the new id alone. *)
Definition id_only_world : World (srv script_api) :=
  world_of [create_A] ∅ ∅ [Some (JObj [("_id", JStr "srv-9")])].

(** The server answers the create of task "A" with the task but no id. *)
Definition no_id_world : World (srv script_api) :=
  world_of [create_A] ∅ ∅ [Some (JObj [("title", JStr "A")])].

(** A delete record with an explicit server id, while the identity map
    sends its client id elsewhere. *)
Definition explicit_delete_world : World (srv script_api) :=
  world_of [delete_explicit] {[ "tmp-1" := "srv-1" ]}
           {[ "srv-7" := JObj [("_id", JStr "srv-7")] ]} [Some JNull].

(** The scenario of the specification: a create and an update of "tmp-1"
    and a delete of the never-created "tmp-2", the server assigning
    "srv-9". *)
Definition scenario_world : World (srv script_api) :=
  world_of [create_A; update_A; delete_orphan] ∅ ∅
           [Some (JObj [("_id", JStr "srv-9"); ("title", JStr "A")]);
            Some JNull].


(* ================================================================== *)
(** ** The dashboard component *)
(* ================================================================== *)

(** [!!v] *)
Definition truthy (v : JsValue) : bool :=
  match v with
  | JUndefined | JNull => false
  | JBool b => b
  | JNum n => negb (n =? 0)
  | JStr s => negb (falsy s)
  | JArr _ | JObj _ => true
  end.

(** [try { m } catch (err) { h }] *)
Definition sync_catch {S A} (m : Sync S A) (h : Exn -> Sync S A) : Sync S A :=
  fun w =>
    match m w with
    | (Ok a, w') => (Ok a, w')
    | (Thrown e, w') => h e w'
    end.

(** Modelled from the spec: [queue] of [src/offline/db.ts] is not part of
    the sources.  "enqueue(record) appends a Pending Operation ...; never
    rejects, never deduplicates": the record, which the dashboard builds
    with its own fresh [_id] and timestamp, goes to the end of the table. *)
Definition queue {S} (o : PendingOp) : Sync S unit :=
  update_world (fun w =>
    mkWorld (outbox w ++ [o]) (mappings w) (tasks w) (server w) (trace w)).

Module Dashboard.

(** The dashboard's own [normalizeTask] (lines 192-212): the six fields of
    the one in [sync.ts] and five more; [None] when one of the two [String]
    conversions throws. *)
Definition normalizeTask (x : JsValue) : option JsObject :=
  id ← js_String (coalesce (opt_get x "_id") (opt_get x "id"));
  ti ← js_String (coalesce (opt_get x "title") (JStr sin_titulo));
  Some
    [("_id", JStr id);
     ("title", JStr ti);
     ("description", coalesce (opt_get x "description") (JStr ""));
     ("status",
      if strict_eq_str (opt_get x "status") "Completada"
         || strict_eq_str (opt_get x "status") "En Progreso"
         || strict_eq_str (opt_get x "status") "Pendiente"
      then opt_get x "status"
      else JStr "Pendiente");
     ("clienteId", opt_get x "clienteId");
     ("createdAt", opt_get x "createdAt");
     ("deleted", JBool (truthy (opt_get x "deleted")));
     ("estimatedTime", coalesce (opt_get x "estimatedTime") (JNum 0));
     ("actualTime", coalesce (opt_get x "actualTime") (JNum 0));
     ("isTracking", JBool (truthy (opt_get x "isTracking")));
     ("startTime", coalesce (opt_get x "startTime") JNull)].

(** [formatTime] (lines 219-227) on the Number that the integer numeral
    [minutes] denotes.  [Math.floor(minutes / 60)] floors the rounded
    quotient; [minutes % 60] is exact and has the sign of [minutes].  For
    an infinite [minutes] the quotient is infinite too and the remainder is
    [NaN], which is not greater than zero. *)
Definition formatTime (minutes : Z) : string :=
  let x := Number_of minutes in
  if x =? 0 then "0m"
  else if is_infinite x
  then if 0 <? x then "Infinityh" else "NaNm"
  else
    let hrs := floor_quotient x 60 in
    let mins := x `rem` 60 in
    if 0 <? hrs
    then if 0 <? mins
         then Number_toString hrs +:+ "h " +:+ Number_toString mins +:+ "m"
         else Number_toString hrs +:+ "h"
    else Number_toString mins +:+ "m".

(** [t._id], a string by the [Task] type ([_id: string], line 178). *)
Definition task_id (t : JsObject) : string :=
  match field "_id" t with
  | JStr s => s
  | _ => ""
  end.

(** [task.clienteId ?? ""], a string by the [Task] type ([clienteId?:
    string], line 182). *)
Definition clienteId_or_empty (task : JsObject) : string :=
  match field "clienteId" task with
  | JStr s => s
  | _ => ""
  end.

(** The body of the dashboard's own PUT (lines 380-388). *)
Definition edit_body (task : JsObject) : JsValue :=
  JObj [("title", field "title" task);
        ("description", field "description" task);
        ("status", field "status" task);
        ("estimatedTime", field "estimatedTime" task);
        ("actualTime", field "actualTime" task);
        ("isTracking", field "isTracking" task);
        ("startTime", field "startTime" task)].

(** The body of the dashboard's own POST (lines 442-448). *)
Definition add_body (task : JsObject) : JsValue :=
  JObj [("title", field "title" task);
        ("description", field "description" task);
        ("status", field "status" task);
        ("estimatedTime", field "estimatedTime" task);
        ("actualTime", field "actualTime" task)].

(** The records the dashboard queues; [uuid] is [crypto.randomUUID()] and
    [now] is [Date.now()].  A delete record carries the client id of the
    task, if any, and nothing else. *)
Definition pending_create (uuid : string) (now : Z) (clienteId : string)
    (task : JsObject) : PendingOp :=
  mkOp uuid OpCreate clienteId None (Some task) now.

Definition pending_update (uuid : string) (now : Z) (task : JsObject)
    : PendingOp :=
  mkOp uuid OpUpdate (clienteId_or_empty task) None (Some task) now.

Definition pending_delete (uuid : string) (now : Z) (task : option JsObject)
    : PendingOp :=
  mkOp uuid OpDelete
       (match task with Some t => clienteId_or_empty t | None => "" end)
       None None now.

(** The part of the component state the handlers below read and set: the
    task list and the fields of the creation form. *)
Record Ui : Type := mkUi {
  ui_tasks : list JsObject;
  ui_title : string;
  ui_desc : string;
  ui_statusNew : string;
  ui_estimatedHours : Z;
  ui_estimatedMinutes : Z
}.

(** [t._id === id] for a task of the list *)
Definition has_id (id : string) (t : JsObject) : bool :=
  strict_eq_str (field "_id" t) id.

(** [tasks.filter((t) => t._id !== id)] *)
Definition without_id (id : string) (l : list JsObject) : list JsObject :=
  filter (fun t => has_id id t = false) l.

Section Handlers.

Context (api : Api).

(** [String.prototype.trim], left to the JavaScript engine. *)
Context (trim : string -> string).

Abbreviation M := (Sync (srv api)).

(** [syncTaskToServer] (lines 363-408). *)
Definition syncTaskToServer (online : bool) (uuid : string) (now : Z)
    (task : JsObject) : M unit :=
  mappingId <~ getMapping (clienteId_or_empty task) ;;
  let id := match mappingId with
            | Some s => JStr s
            | None => field "_id" task
            end in
  if falsy_opt mappingId && (negb (truthy id) || strict_eq_str id "undefined")
  then queue (pending_update uuid now task)
  else if online
  then sync_catch
         (ref <~ js_try (js_String id) ;;
          put api ("/tasks/" +:+ ref) (edit_body task) ;;;
          sync_ret tt)
         (fun _ => queue (pending_update uuid now task))
  else queue (pending_update uuid now task).

(** [removeTask] (lines 529-567); the handler reads the task list it was
    rendered with and hands back the next component state. *)
Definition removeTask (online : bool) (uuid : string) (now : Z)
    (taskId : string) (ui : Ui) : M Ui :=
  let task := List.find (has_id taskId) (ui_tasks ui) in
  let ui' := mkUi (without_id taskId (ui_tasks ui))
                  (ui_title ui) (ui_desc ui) (ui_statusNew ui)
                  (ui_estimatedHours ui) (ui_estimatedMinutes ui) in
  removeTaskLocal taskId ;;;
  mappingId <~ getMapping
                 (match task with Some t => clienteId_or_empty t | None => "" end) ;;
  let id := default taskId mappingId in
  if falsy_opt mappingId && (falsy id || bool_decide (id = "undefined"))
  then queue (pending_delete uuid now task) ;;; sync_ret ui'
  else if online
  then sync_catch
         (del api ("/tasks/" +:+ id) ;;; sync_ret tt)
         (fun _ => queue (pending_delete uuid now task)) ;;;
       sync_ret ui'
  else queue (pending_delete uuid now task) ;;; sync_ret ui'.

(** The task object [addTask] builds (lines 418-430); [iso] is
    [new Date().toISOString()]. *)
Definition newTask (clienteId iso : string) (ui : Ui) : JsObject :=
  [("_id", JStr clienteId);
   ("title", JStr (trim (ui_title ui)));
   ("description", JStr (trim (ui_desc ui)));
   ("status", JStr (ui_statusNew ui));
   ("clienteId", JStr clienteId);
   ("createdAt", JStr iso);
   ("estimatedTime",
    JNum (Number_add (Number_mul (ui_estimatedHours ui) 60)
                     (ui_estimatedMinutes ui)));
   ("actualTime", JNum 0);
   ("isTracking", JBool false);
   ("startTime", JNull)].

(** [addTask] (lines 410-477); [clienteId] and [uuid] are the two values of
    [crypto.randomUUID()]. *)
Definition addTask (online : bool) (clienteId uuid iso : string) (now : Z)
    (ui : Ui) : M Ui :=
  if falsy (trim (ui_title ui)) then sync_ret ui
  else
    let task := newTask clienteId iso ui in
    let fresh_form tasks := mkUi tasks "" "" "Pendiente" 0 30 in
    putTaskLocal (JObj task) ;;;
    if online
    then sync_catch
           (data <~ post api "/tasks" (add_body task) ;;
            serverTask <~ js_try (normalizeTask (response_task data)) ;;
            let serverId := task_id serverTask in
            setMapping clienteId serverId ;;;
            removeTaskLocal clienteId ;;;
            putTaskLocal (JObj serverTask) ;;;
            sync_ret
              (fresh_form (serverTask :: without_id clienteId (task :: ui_tasks ui))))
           (fun _ =>
              queue (pending_create uuid now clienteId task) ;;;
              sync_ret (fresh_form (task :: ui_tasks ui)))
    else
      queue (pending_create uuid now clienteId task) ;;;
      sync_ret (fresh_form (task :: ui_tasks ui)).

End Handlers.

End Dashboard.


(* ================================================================== *)
(** ** Reading a displayed duration *)
(* ================================================================== *)

Definition is_digit (c : ascii) : bool :=
  match c with
  | "0" | "1" | "2" | "3" | "4" | "5" | "6" | "7" | "8" | "9" => true
  | _ => false
  end%char.

Fixpoint all_digits (s : string) : bool :=
  match s with
  | EmptyString => true
  | String c r => is_digit c && all_digits r
  end.

(** A tail that cannot be mistaken for more digits. *)
Definition no_digit_ahead (s : string) : bool :=
  match s with
  | EmptyString => true
  | String c _ => negb (is_digit c)
  end.

(* ================================================================== *)
(** ** More sample data *)
(* ================================================================== *)

(** The create goes through and the update that follows is rejected. *)
Definition update_fails_world : World (srv script_api) :=
  world_of [delete_orphan; update_A; create_A] ∅ ∅
           [Some (JObj [("_id", JStr "srv-9"); ("title", JStr "A")]); None].

(** Nothing pending, "tmp-1" already mapped to "srv-9". *)
Definition mapped_world : World (srv script_api) :=
  world_of [] {[ "tmp-1" := "srv-9" ]}
           {[ "srv-9" := JObj [("_id", JStr "srv-9"); ("title", JStr "A")] ]}
           [Some JNull].

(** Nothing pending and nothing mapped. *)
Definition idle_world : World (srv script_api) :=
  world_of [] ∅
           {[ "srv-3" := JObj [("_id", JStr "srv-3"); ("title", JStr "T")] ]}
           [Some (JObj [("_id", JStr "srv-4")])].

(** A task that came from the server: it has no client id. *)
Definition server_task : JsObject :=
  [("_id", JStr "srv-3"); ("title", JStr "T"); ("status", JStr "Pendiente")].

(** A task that was created on this client and is mapped. *)
Definition local_task : JsObject :=
  [("_id", JStr "srv-9"); ("title", JStr "A2"); ("clienteId", JStr "tmp-1");
   ("estimatedTime", JNum 45)].

(** A create record without payload. *)
Definition create_no_data : PendingOp :=
  mkOp "r6" OpCreate "tmp-6" None None 7.

(** A delete record with neither a server id nor a client id. *)
Definition delete_no_refs : PendingOp :=
  mkOp "r7" OpDelete "" None None 8.

(** The dashboard showing [server_task] and [local_task], with "Nueva"
    typed into the creation form and an estimate of 1 h 15 m. *)
Definition sample_ui : Dashboard.Ui :=
  Dashboard.mkUi [server_task; local_task] "Nueva" "" "Pendiente" 1 15.

(* ================================================================== *)
(** ** Facts about the sort *)
(* ================================================================== *)

Lemma insert_by_ts_perm o l : insert_by_ts o l ≡ₚ o :: l.
Proof.
  induction l as [|x l IH]; simpl; [done|].
  destruct (ts o <=? ts x); [done|].
  rewrite IH. apply Permutation_swap.
Qed.

Lemma sort_by_ts_perm l : sort_by_ts l ≡ₚ l.
Proof.
  induction l as [|o l IH]; simpl; [done|].
  by rewrite insert_by_ts_perm, IH.
Qed.

Lemma insert_by_ts_sorted o l :
  StronglySorted ts_le l -> StronglySorted ts_le (insert_by_ts o l).
Proof.
  induction l as [|x l IH]; simpl; intros Hs.
  - repeat constructor.
  - apply StronglySorted_cons in Hs as [Hx Hl].
    destruct (Z.leb_spec (ts o) (ts x)) as [Hle|Hlt].
    + apply StronglySorted_cons. split.
      * constructor; [done|].
        eapply Forall_impl; [exact Hx|]. unfold ts_le. intros; lia.
      * by apply StronglySorted_cons.
    + apply StronglySorted_cons. split; [|by apply IH].
      rewrite insert_by_ts_perm. constructor; [unfold ts_le; lia|done].
Qed.

Lemma sort_by_ts_sorted l : StronglySorted ts_le (sort_by_ts l).
Proof.
  induction l as [|o l IH]; simpl; [constructor|].
  by apply insert_by_ts_sorted.
Qed.

Lemma StronglySorted_filter_list {A} (R : relation A) (P : A -> Prop)
    `{!forall x, Decision (P x)} (l : list A) :
  StronglySorted R l -> StronglySorted R (filter P l).
Proof.
  induction 1 as [|x l Hl IH Hx]; [constructor|].
  rewrite filter_cons. destruct (decide (P x)); [|done].
  constructor; [done|].
  apply Forall_forall. intros y [_ Hy]%list_elem_of_filter.
  by eapply Forall_forall in Hx.
Qed.

Lemma StronglySorted_prefix {A} (R : relation A) (l k : list A) :
  l `prefix_of` k -> StronglySorted R k -> StronglySorted R l.
Proof. intros [t ->]. apply StronglySorted_app_1_l. Qed.

(** The sort is stable: records with equal timestamps keep their storage
    order. *)
Lemma insert_by_ts_stable t o l :
  filter (fun x => ts x = t) (insert_by_ts o l)
  = filter (fun x => ts x = t) (o :: l).
Proof.
  induction l as [|x l IH]; simpl; [done|].
  destruct (Z.leb_spec (ts o) (ts x)) as [Hle|Hlt]; [done|].
  rewrite (filter_cons _ x), IH, !filter_cons.
  destruct (decide (ts x = t)), (decide (ts o = t)); try done. lia.
Qed.

Lemma sort_by_ts_stable t l :
  filter (fun x => ts x = t) (sort_by_ts l) = filter (fun x => ts x = t) l.
Proof.
  induction l as [|o l IH]; simpl; [done|].
  by rewrite insert_by_ts_stable, !filter_cons, IH.
Qed.

Lemma sort_by_ts_nil_inv l : sort_by_ts l = [] -> l = [].
Proof.
  intros H. apply Permutation_nil_r. by rewrite <- H, sort_by_ts_perm.
Qed.

Lemma by_kind_kind k l : Forall (fun o => op o = k) (by_kind k l).
Proof.
  apply Forall_forall. by intros o [? _]%list_elem_of_filter.
Qed.

Lemma by_kind_elem_of k l o : o ∈ by_kind k (sort_by_ts l) -> o ∈ l /\ op o = k.
Proof.
  intros [? Ho]%list_elem_of_filter. split; [|done].
  by rewrite <- (sort_by_ts_perm l).
Qed.

Lemma replay_order_elem_of l o : o ∈ replay_order l <-> o ∈ l.
Proof.
  unfold replay_order, by_kind. rewrite !elem_of_app, !list_elem_of_filter.
  rewrite (sort_by_ts_perm l). destruct (op o); intuition congruence.
Qed.

Lemma replay_order_perm l : replay_order l ≡ₚ l.
Proof.
  unfold replay_order, by_kind.
  rewrite <- (sort_by_ts_perm l) at 4.
  induction (sort_by_ts l) as [|x s IH]; [done|].
  rewrite !filter_cons.
  destruct (op x); simpl.
  - by rewrite IH.
  - rewrite <- Permutation_middle. by rewrite IH.
  - rewrite app_assoc, <- Permutation_middle, <- app_assoc. by rewrite IH.
Qed.

(* ================================================================== *)
(** ** Facts about objects and guards *)
(* ================================================================== *)

Lemma field_set_field k v fs : field k (set_field k v fs) = v.
Proof.
  induction fs as [|[k' v'] fs IH]; simpl.
  - by rewrite decide_True.
  - destruct (decide (k = k')) as [->|Hne]; simpl.
    + by rewrite decide_True.
    + by rewrite decide_False.
Qed.

Lemma field_set_field_ne k k' v fs :
  k' <> k -> field k' (set_field k v fs) = field k' fs.
Proof.
  intros Hne. induction fs as [|[k0 v0] fs IH]; simpl.
  - by rewrite decide_False.
  - destruct (decide (k = k0)) as [->|Hk]; simpl.
    + by rewrite !decide_False.
    + destruct (decide (k' = k0)); [done|apply IH].
Qed.

Lemma entity_key_task_obj t : entity_key (task_obj t) = Some (_id t).
Proof. reflexivity. Qed.

Lemma entity_key_spread id d :
  entity_key (JObj (set_field "_id" (JStr id) d)) = Some id.
Proof. unfold entity_key. simpl. by rewrite field_set_field. Qed.

Lemma truthy_id_Some v s : truthy_id v = Some s <-> v = Some s /\ s <> "".
Proof.
  unfold truthy_id, falsy_opt, falsy. destruct v as [s'|]; simpl.
  - case_bool_decide; subst; split.
    + discriminate.
    + intros [[= <-] Hs]. by destruct Hs.
    + by intros [= <-].
    + by intros [? _].
  - split; [discriminate|]. by intros [? _].
Qed.

Lemma truthy_id_None v : truthy_id v = None <-> v = None \/ v = Some "".
Proof.
  unfold truthy_id, falsy_opt, falsy. destruct v as [s'|]; simpl.
  - case_bool_decide; subst; split; try discriminate; auto.
    intros [|[= ->]]; done.
  - split; auto.
Qed.

(* ================================================================== *)
(** ** The loop bodies *)
(* ================================================================== *)

Section Steps.

Context (api : Api).

Abbreviation W := (World (srv api)).

(** *** The three loop bodies, run *)

Lemma process_create_run o (w : W) :
  process_create api o w =
  match data o with
  | None =>
      (Thrown TypeError,
       mkWorld (outbox w) (mappings w) (tasks w) (server w)
               (trace w ++ [Processing o]))
  | Some d =>
      let reply := api_post api "/tasks" (request_body d) (server w) in
      let tr := trace w ++ [Processing o; Post "/tasks" (request_body d)] in
      match reply.1 with
      | None =>
          (Thrown Rejected,
           mkWorld (outbox w) (mappings w) (tasks w) reply.2 tr)
      | Some res =>
          match normalizeTask (response_task res) with
          | None =>
              (Thrown TypeError,
               mkWorld (outbox w) (mappings w) (tasks w) reply.2 tr)
          | Some t =>
              if falsy (_id t) || bool_decide (_id t = clienteId o)
              then (Thrown InvalidServerId,
                    mkWorld (outbox w) (mappings w) (tasks w) reply.2 tr)
              else (Ok (),
                    mkWorld (filter (fun x => op_id x <> op_id o) (outbox w))
                            (<[clienteId o := _id t]> (mappings w))
                            (<[_id t := task_obj t]>
                               (base.delete (clienteId o) (tasks w)))
                            reply.2 tr)
          end
      end
  end.
Proof.
  unfold process_create, sync_bind, emit, op_data, post; simpl.
  destruct (data o) as [d|]; simpl; [|done].
  destruct (api_post api "/tasks" (request_body d) (server w)) as [[res|] s'];
    simpl; rewrite <- app_assoc; simpl; [|done].
  destruct (normalizeTask (response_task res)) as [t|]; simpl; [|done].
  destruct (falsy _ || bool_decide _); done.
Qed.

Lemma process_update_run o (w : W) :
  process_update api o w =
  let tr0 := trace w ++ [Processing o] in
  match truthy_id (mappings w !! clienteId o) with
  | None =>
      (Ok (),
       mkWorld (filter (fun x => op_id x <> op_id o) (outbox w))
               (mappings w) (tasks w) (server w) tr0)
  | Some id =>
      match data o with
      | None =>
          (Thrown TypeError,
           mkWorld (outbox w) (mappings w) (tasks w) (server w) tr0)
      | Some d =>
          let url := "/tasks/" +:+ id in
          let reply := api_put api url (request_body d) (server w) in
          let tr := trace w ++ [Processing o; Put url (request_body d)] in
          match reply.1 with
          | None =>
              (Thrown Rejected,
               mkWorld (outbox w) (mappings w) (tasks w) reply.2 tr)
          | Some _ =>
              (Ok (),
               mkWorld (filter (fun x => op_id x <> op_id o) (outbox w))
                       (mappings w)
                       (<[id := JObj (set_field "_id" (JStr id) d)]> (tasks w))
                       reply.2 tr)
          end
      end
  end.
Proof.
  unfold process_update, sync_bind, emit, getMapping, read_world; simpl.
  destruct (truthy_id _) as [id|]; simpl; [|done].
  unfold sync_bind, op_data.
  destruct (data o) as [d|]; simpl; [|done].
  unfold put; simpl.
  destruct (api_put api _ (request_body d) (server w)) as [[res|] s'];
    simpl; rewrite <- app_assoc; simpl; [|done].
  unfold putTaskLocal, update_world; simpl.
  by rewrite entity_key_spread.
Qed.

Lemma process_delete_run o (w : W) :
  process_delete api o w =
  let tr0 := trace w ++ [Processing o] in
  match delete_target (mappings w) o with
  | None =>
      (Ok (),
       mkWorld (filter (fun x => op_id x <> op_id o) (outbox w))
               (mappings w) (tasks w) (server w) tr0)
  | Some id =>
      let url := "/tasks/" +:+ id in
      let reply := api_delete api url (server w) in
      let tr := trace w ++ [Processing o; Delete url] in
      match reply.1 with
      | None =>
          (Thrown Rejected,
           mkWorld (outbox w) (mappings w) (tasks w) reply.2 tr)
      | Some _ =>
          (Ok (),
           mkWorld (filter (fun x => op_id x <> op_id o) (outbox w))
                   (mappings w) (base.delete id (tasks w)) reply.2 tr)
      end
  end.
Proof.
  unfold process_delete, delete_target, resolve_delete, sync_bind, emit; simpl.
  destruct (falsy_opt (serverId o) && negb (falsy (clienteId o)));
    unfold getMapping, read_world, sync_ret; simpl.
  all: destruct (truthy_id _) as [id|]; simpl; [|done].
  all: unfold sync_bind, del; simpl.
  all: destruct (api_delete api _ (server w)) as [[res|] s'];
    simpl; rewrite <- app_assoc; simpl; done.
Qed.


(** *** What every loop body guarantees *)

Lemma replay_one_quiet o : replay [o] [Processing o].
Proof. apply replay_quiet, replay_nil. Qed.

Lemma replay_one_call o c : call_of o c -> replay [o] [Processing o; c].
Proof. intros H. apply replay_call; [done|apply replay_nil]. Qed.

Lemma process_create_spec : body_spec api OpCreate (process_create api).
Proof.
  split; intros o w; rewrite process_create_run.
  - intros Hk. destruct (data o) as [d|] eqn:Hd; simpl.
    + exists [Processing o; Post "/tasks" (request_body d)]. split.
      * destruct (api_post _ _ _ _).1; [|done].
        destruct (normalizeTask _); [|done].
        destruct (falsy _ || bool_decide _); done.
      * apply replay_one_call. unfold call_of. rewrite Hk. eauto.
    + exists [Processing o]. split; [done|apply replay_one_quiet].
  - intros u. destruct (data o); simpl; [|done].
    destruct (api_post _ _ _ _).1; [|done].
    destruct (normalizeTask _); [|done].
    destruct (falsy _ || bool_decide _); done.
  - intros e. destruct (data o); simpl; [|done].
    destruct (api_post _ _ _ _).1; [|done].
    destruct (normalizeTask _); [|done].
    destruct (falsy _ || bool_decide _); done.
Qed.

Lemma process_update_spec : body_spec api OpUpdate (process_update api).
Proof.
  split; intros o w; rewrite process_update_run.
  - intros Hk. simpl.
    destruct (truthy_id _) as [id|] eqn:Hid.
    + apply truthy_id_Some in Hid as [_ Hne].
      destruct (data o) as [d|] eqn:Hd; simpl.
      * exists [Processing o; Put ("/tasks/" +:+ id) (request_body d)]. split.
        { destruct (api_put _ _ _ _).1; done. }
        apply replay_one_call. unfold call_of. rewrite Hk.
        split; [by exists id | by exists d].
      * exists [Processing o]. split; [done|apply replay_one_quiet].
    + exists [Processing o]. split; [done|apply replay_one_quiet].
  - intros u. simpl. destruct (truthy_id _); [|done].
    destruct (data o); simpl; [|done].
    destruct (api_put _ _ _ _).1; done.
  - intros e. simpl. destruct (truthy_id _); [|done].
    destruct (data o); simpl; [|done].
    destruct (api_put _ _ _ _).1; done.
Qed.

Lemma process_delete_spec : body_spec api OpDelete (process_delete api).
Proof.
  split; intros o w; rewrite process_delete_run.
  - intros Hk. simpl.
    destruct (delete_target _ _) as [id|] eqn:Hid.
    + apply truthy_id_Some in Hid as [_ Hne].
      exists [Processing o; Delete ("/tasks/" +:+ id)]. split.
      { destruct (api_delete _ _ _).1; done. }
      apply replay_one_call. unfold call_of. rewrite Hk. by exists id.
    + exists [Processing o]. split; [done|apply replay_one_quiet].
  - intros u. simpl. destruct (delete_target _ _); [|done].
    destruct (api_delete _ _ _).1; done.
  - intros e. simpl. destruct (delete_target _ _); [|done].
    destruct (api_delete _ _ _).1; done.
Qed.

End Steps.

(* ================================================================== *)
(** ** Facts about traces *)
(* ================================================================== *)

Lemma remove_ids_nil l : remove_ids [] l = l.
Proof.
  unfold remove_ids. induction l as [|x l IH]; [done|].
  rewrite filter_cons_True; [by rewrite IH|]. by intros ?%elem_of_nil.
Qed.

Lemma remove_ids_cons i ids l :
  remove_ids ids (filter (fun x => op_id x <> i) l) = remove_ids (i :: ids) l.
Proof.
  unfold remove_ids. induction l as [|x l IH]; [done|].
  rewrite !filter_cons.
  destruct (decide (op_id x <> i)) as [Hne|Heq].
  - rewrite filter_cons, IH.
    destruct (decide (op_id x ∉ ids)) as [Hn|Hin].
    + rewrite decide_True; [done|]. rewrite not_elem_of_cons. auto.
    + rewrite decide_False; [done|]. rewrite not_elem_of_cons. tauto.
  - rewrite IH, decide_False; [done|].
    apply dec_stable in Heq. rewrite Heq. intros Hn. apply Hn. left.
Qed.

Lemma remove_ids_app ids1 ids2 l :
  remove_ids ids2 (remove_ids ids1 l) = remove_ids (ids1 ++ ids2) l.
Proof.
  revert l. induction ids1 as [|i ids1 IH]; intros l; simpl.
  - by rewrite remove_ids_nil.
  - by rewrite <- !remove_ids_cons, IH.
Qed.

Lemma elem_of_remove_ids ids l x :
  x ∈ remove_ids ids l <-> x ∈ l /\ op_id x ∉ ids.
Proof. unfold remove_ids. rewrite list_elem_of_filter. tauto. Qed.

Lemma replay_app os1 os2 e1 e2 :
  replay os1 e1 -> replay os2 e2 -> replay (os1 ++ os2) (e1 ++ e2).
Proof.
  induction 1 as [|o os evs _ IH|o c os evs Hc _ IH]; simpl; intros H2.
  - done.
  - apply replay_quiet. by apply IH.
  - apply replay_call; [done|]. by apply IH.
Qed.

Lemma replay_processed os evs : replay os evs -> processed evs = os.
Proof.
  induction 1 as [|o os evs _ IH|o c os evs Hc _ IH]; [done|..].
  - by rewrite <- IH.
  - rewrite <- IH. unfold call_of in Hc.
    destruct c; try done; by destruct (op o).
Qed.

Lemma call_of_kind o c : call_of o c -> call_kind c = Some (op o).
Proof. unfold call_of. by destruct (op o), c. Qed.

Lemma replay_split os1 os2 evs :
  replay (os1 ++ os2) evs ->
  exists e1 e2, evs = e1 ++ e2 /\ replay os1 e1 /\ replay os2 e2.
Proof.
  revert evs. induction os1 as [|o os1 IH]; simpl; intros evs H.
  - exists [], evs. split; [done|]. split; [constructor|done].
  - inversion H as [|? ? evs' H'|? c ? evs' Hc H']; subst.
    + destruct (IH _ H') as (e1 & e2 & -> & H1 & H2).
      exists (Processing o :: e1), e2. split; [done|]. split; [|done].
      by constructor.
    + destruct (IH _ H') as (e1 & e2 & -> & H1 & H2).
      exists (Processing o :: c :: e1), e2. split; [done|]. split; [|done].
      by constructor.
Qed.

Lemma replay_calls_kind k os evs :
  replay os evs -> Forall (fun o => op o = k) os ->
  Forall (fun e => call_kind e = Some k) (net_calls evs).
Proof.
  induction 1 as [|o os evs _ IH|o c os evs Hc _ IH]; intros Hk.
  - constructor.
  - apply Forall_cons in Hk as [_ Hk]. simpl. by apply IH.
  - apply Forall_cons in Hk as [Ho Hk].
    apply call_of_kind in Hc as Hc'. unfold net_calls in *. simpl.
    unfold is_call at 1. rewrite Hc'. constructor; [by rewrite Hc', Ho|].
    by apply IH.
Qed.

Lemma replay_no_completion os evs : replay os evs -> SyncComplete ∉ evs.
Proof.
  induction 1 as [|o os evs _ IH|o c os evs Hc _ IH].
  - apply not_elem_of_nil.
  - rewrite not_elem_of_cons. by split.
  - rewrite !not_elem_of_cons. split; [done|]. split; [|done].
    intros <-. unfold call_of in Hc. by destruct (op o).
Qed.

Lemma net_calls_app e1 e2 : net_calls (e1 ++ e2) = net_calls e1 ++ net_calls e2.
Proof. unfold net_calls. apply List.filter_app. Qed.

Lemma pass_events_app {S} (w w' : World S) evs :
  trace w' = trace w ++ evs -> pass_events w w' = evs.
Proof. intros H. unfold pass_events. rewrite H. apply drop_app_length. Qed.

Lemma prefix_app_split {A} (l a b : list A) :
  l `prefix_of` a ++ b ->
  exists la lb, l = la ++ lb /\ la `prefix_of` a /\ lb `prefix_of` b.
Proof.
  intros [t Ht].
  exists (take (length l) a), (take (length l - length a) b).
  split; [|split; apply prefix_take].
  rewrite <- take_app, Ht. by rewrite take_app_length.
Qed.

(* ================================================================== *)
(** ** The loop and the pass *)
(* ================================================================== *)

Section Loops.

Context (api : Api).

Abbreviation W := (World (srv api)).

(** *** The loop *)

Lemma for_each_replay k body (ops : list PendingOp) (w : W) :
  body_spec api k body ->
  Forall (fun o => op o = k) ops ->
  exists evs,
    trace (for_each api body ops w).2 = trace w ++ evs /\
    match (for_each api body ops w).1 with
    | None =>
        replay ops evs /\
        outbox (for_each api body ops w).2
        = remove_ids (op_id <$> ops) (outbox w)
    | Some (o, e) =>
        exists pre post w',
          ops = pre ++ o :: post /\
          replay (pre ++ [o]) evs /\
          outbox (for_each api body ops w).2
          = remove_ids (op_id <$> pre) (outbox w) /\
          for_each api body pre w = (None, w') /\
          body o w' = (Thrown e, (for_each api body ops w).2)
    end.
Proof.
  intros Hb Hk. revert w.
  induction ops as [|o ops IH]; intros w; simpl.
  - exists []. rewrite app_nil_r. split; [done|]. split; [constructor|].
    by rewrite remove_ids_nil.
  - apply Forall_cons in Hk as [Ho Hk].
    destruct (bs_events _ _ _ Hb o w Ho) as (ev1 & Htr1 & Hr1).
    destruct (body o w) as [[[]|e] w1] eqn:Hrun; simpl in *.
    + destruct (IH Hk w1) as (ev2 & Htr2 & Hrest).
      exists (ev1 ++ ev2). rewrite Htr2, Htr1, <- app_assoc. split; [done|].
      pose proof (bs_ok _ _ _ Hb o w ()) as Hob. rewrite Hrun in Hob.
      simpl in Hob. specialize (Hob eq_refl).
      destruct (for_each api body ops w1).1 as [[o' e']|].
      * destruct Hrest as (pre & post & w' & -> & Hrep & Hout & Hpre & Hfail).
        exists (o :: pre), post, w'. split; [done|].
        split; [by apply (replay_app [o])|].
        split; [by rewrite Hout, Hob, remove_ids_cons|].
        simpl. rewrite Hrun. by split.
      * destruct Hrest as [Hrep Hout].
        split; [by apply (replay_app [o])|].
        by rewrite Hout, Hob, remove_ids_cons.
    + exists ev1. split; [done|].
      exists [], ops, w. split; [done|]. split; [done|].
      pose proof (bs_thrown _ _ _ Hb o w e) as Hth. rewrite Hrun in Hth.
      simpl in Hth. destruct (Hth eq_refl) as (Hob & _ & _).
      split; [by rewrite remove_ids_nil|]. by split.
Qed.

(** *** The whole pass, by the way it returns *)

Lemma syncNow_shape online (w : W) :
  match (syncNow api online w).1 with
  | ExitOffline => online = false /\ (syncNow api online w).2 = w
  | ExitNothingPending =>
      online = true /\ outbox w = [] /\ (syncNow api online w).2 = w
  | ExitFailed o e =>
      online = true /\
      exists pre post evs,
        replay_order (outbox w) = pre ++ o :: post /\
        trace (syncNow api online w).2 = trace w ++ evs /\
        replay (pre ++ [o]) evs /\
        outbox (syncNow api online w).2
        = remove_ids (op_id <$> pre) (outbox w)
  | ExitCompleted =>
      online = true /\ outbox w <> [] /\
      exists evs,
        trace (syncNow api online w).2 = trace w ++ evs ++ [SyncComplete] /\
        replay (replay_order (outbox w)) evs /\
        outbox (syncNow api online w).2
        = remove_ids (op_id <$> replay_order (outbox w)) (outbox w)
  end.
Proof.
  unfold syncNow, getOutbox, replay_order. destruct online; simpl; [|done].
  destruct (sort_by_ts (outbox w)) as [|x s] eqn:Hs.
  { simpl. split; [done|]. split; [|done]. by apply sort_by_ts_nil_inv. }
  assert (outbox w <> []) as Hne.
  { intros H. rewrite H in Hs. discriminate. }
  rewrite <- Hs. clear Hs x s.
  set (cs := by_kind OpCreate (sort_by_ts (outbox w))).
  set (us := by_kind OpUpdate (sort_by_ts (outbox w))).
  set (ds := by_kind OpDelete (sort_by_ts (outbox w))).
  destruct (for_each_replay OpCreate (process_create api) cs w
              (process_create_spec api) (by_kind_kind _ _)) as (e1 & Ht1 & H1).
  destruct (for_each api (process_create api) cs w) as [[[o e]|] w1];
    simpl in *.
  { split; [done|].
    destruct H1 as (pre & post & w' & Hcs & Hrep & Hout & _).
    exists pre, (post ++ us ++ ds), e1.
    rewrite Hcs, <- app_assoc. done. }
  destruct H1 as [Hr1 Ho1].
  destruct (for_each_replay OpUpdate (process_update api) us w1
              (process_update_spec api) (by_kind_kind _ _)) as (e2 & Ht2 & H2).
  destruct (for_each api (process_update api) us w1) as [[[o e]|] w2];
    simpl in *.
  { split; [done|].
    destruct H2 as (pre & post & w' & Hus & Hrep & Hout & _).
    exists (cs ++ pre), (post ++ ds), (e1 ++ e2).
    split; [by rewrite Hus, <- !app_assoc|].
    split; [by rewrite Ht2, Ht1, <- app_assoc|].
    split; [rewrite <- app_assoc; by apply replay_app|].
    by rewrite Hout, Ho1, remove_ids_app, fmap_app. }
  destruct H2 as [Hr2 Ho2].
  destruct (for_each_replay OpDelete (process_delete api) ds w2
              (process_delete_spec api) (by_kind_kind _ _)) as (e3 & Ht3 & H3).
  destruct (for_each api (process_delete api) ds w2) as [[[o e]|] w3];
    simpl in *.
  { split; [done|].
    destruct H3 as (pre & post & w' & Hds & Hrep & Hout & _).
    exists (cs ++ us ++ pre), post, (e1 ++ e2 ++ e3).
    split; [by rewrite Hds, <- !app_assoc|].
    split; [by rewrite Ht3, Ht2, Ht1, <- !app_assoc|].
    split; [rewrite <- !app_assoc; by repeat apply replay_app|].
    by rewrite Hout, Ho2, Ho1, !remove_ids_app, !fmap_app. }
  destruct H3 as [Hr3 Ho3].
  split; [done|]. split; [done|].
  exists (e1 ++ e2 ++ e3).
  split; [by rewrite Ht3, Ht2, Ht1, <- !app_assoc|].
  split; [by repeat apply replay_app|].
  by rewrite Ho3, Ho2, Ho1, !remove_ids_app, !fmap_app.
Qed.

End Loops.

Lemma by_kind_idem k l : by_kind k (by_kind k l) = by_kind k l.
Proof.
  unfold by_kind. induction l as [|x l IH]; [done|].
  rewrite (filter_cons _ x l). destruct (decide (op x = k)) as [Hk|Hk]; [|done].
  rewrite filter_cons, decide_True by done. by rewrite IH.
Qed.

Lemma by_kind_other k k' l : k <> k' -> by_kind k (by_kind k' l) = [].
Proof.
  intros Hne. unfold by_kind. induction l as [|x l IH]; [done|].
  rewrite (filter_cons _ x l). destruct (decide (op x = k')) as [Hk|Hk]; [|done].
  rewrite filter_cons, decide_False; [done|]. congruence.
Qed.

Lemma by_kind_app k l1 l2 : by_kind k (l1 ++ l2) = by_kind k l1 ++ by_kind k l2.
Proof. apply filter_app. Qed.

Lemma by_kind_replay_order k l :
  by_kind k (replay_order l) = by_kind k (sort_by_ts l).
Proof.
  unfold replay_order. rewrite !by_kind_app. destruct k.
  - rewrite by_kind_idem, !by_kind_other by done. by rewrite !app_nil_r.
  - rewrite by_kind_idem, !by_kind_other by done. by rewrite !app_nil_r.
  - by rewrite by_kind_idem, !by_kind_other by done.
Qed.

Lemma by_kind_prefix k l1 l2 :
  l1 `prefix_of` l2 -> by_kind k l1 `prefix_of` by_kind k l2.
Proof.
  intros [t ->]. rewrite by_kind_app. by apply prefix_app_r.
Qed.

Lemma replay_calls os evs c :
  replay os evs -> c ∈ evs ->
  (exists o, c = Processing o) \/ (exists o, o ∈ os /\ call_of o c).
Proof.
  induction 1 as [|o os evs _ IH|o c' os evs Hc _ IH]; intros Hin.
  - by apply elem_of_nil in Hin.
  - apply elem_of_cons in Hin as [->|Hin]; [left; eauto|].
    destruct (IH Hin) as [?|(o' & ? & ?)]; [by left|right].
    exists o'. split; [by right|done].
  - apply elem_of_cons in Hin as [->|Hin]; [left; eauto|].
    apply elem_of_cons in Hin as [->|Hin].
    + right. exists o. split; [left|done].
    + destruct (IH Hin) as [?|(o' & ? & ?)]; [by left|right].
      exists o'. split; [by right|done].
Qed.

Section Pass.

Context (api : Api).

Abbreviation W := (World (srv api)).

(** The events of a pass are the replay of a prefix of the replay order,
    followed by the completion event exactly when the pass ran to the end. *)
Lemma pass_events_shape online (w : W) :
  exists done body,
    done `prefix_of` replay_order (outbox w) /\
    replay done body /\
    ((syncNow api online w).1 = ExitCompleted /\
       done = replay_order (outbox w) /\
       pass_events w (syncNow api online w).2 = body ++ [SyncComplete]
     \/
     (syncNow api online w).1 <> ExitCompleted /\
       pass_events w (syncNow api online w).2 = body).
Proof.
  pose proof (syncNow_shape api online w) as H.
  destruct (syncNow api online w) as [[| |o e|] w']; simpl in *.
  - destruct H as [_ ->]. exists [], []. split; [apply prefix_nil|].
    split; [constructor|]. right. split; [done|].
    unfold pass_events. by rewrite drop_all.
  - destruct H as (_ & _ & ->). exists [], []. split; [apply prefix_nil|].
    split; [constructor|]. right. split; [done|].
    unfold pass_events. by rewrite drop_all.
  - destruct H as (_ & pre & post & evs & Hord & Htr & Hrep & _).
    exists (pre ++ [o]), evs. split.
    { exists post. by rewrite Hord, <- app_assoc. }
    split; [done|]. right. split; [done|]. by apply pass_events_app.
  - destruct H as (_ & _ & evs & Htr & Hrep & _).
    exists (replay_order (outbox w)), evs. split; [done|]. split; [done|].
    left. split; [done|]. split; [done|]. by apply pass_events_app.
Qed.

End Pass.

(* ================================================================== *)
(** ** Ordering of a pass *)
(* ================================================================== *)

Lemma processed_app e1 e2 : processed (e1 ++ e2) = processed e1 ++ processed e2.
Proof. apply omap_app. Qed.

Lemma pass_processed api online (w : World (srv api)) done body :
  replay done body ->
  pass_events w (syncNow api online w).2 = body ++ [SyncComplete]
  \/ pass_events w (syncNow api online w).2 = body ->
  processed (pass_events w (syncNow api online w).2) = done
  /\ net_calls (pass_events w (syncNow api online w).2) = net_calls body.
Proof.
  intros Hrep [->| ->].
  - rewrite processed_app, net_calls_app, !app_nil_r.
    by rewrite (replay_processed _ _ Hrep).
  - by rewrite (replay_processed _ _ Hrep).
Qed.

(** C1. In every pass all create calls come before any update call and all
    update calls before any delete call, whatever the timestamps across
    kinds; every call belongs to the record announced just before it and is
    of that record's kind; the records are taken up along the replay order
    (creates, updates, deletes of the sorted outbox), so that within each
    kind they are processed by ascending [ts]. *)
Theorem create_update_delete_order api online (w : World (srv api)) :
  let evs := pass_events w (syncNow api online w).2 in
  (exists posts puts dels,
     net_calls evs = posts ++ puts ++ dels /\
     Forall (fun e => call_kind e = Some OpCreate) posts /\
     Forall (fun e => call_kind e = Some OpUpdate) puts /\
     Forall (fun e => call_kind e = Some OpDelete) dels) /\
  (exists body,
     replay (processed evs) body /\
     (evs = body \/ evs = body ++ [SyncComplete])) /\
  processed evs `prefix_of` replay_order (outbox w) /\
  (forall k, StronglySorted ts_le (by_kind k (processed evs))).
Proof.
  intros evs. subst evs.
  destruct (pass_events_shape api online w)
    as (done & body & Hpre & Hrep & Hcase).
  assert (pass_events w (syncNow api online w).2 = body ++ [SyncComplete]
          \/ pass_events w (syncNow api online w).2 = body) as Hevs.
  { destruct Hcase as [(_ & _ & ?)|[_ ?]]; auto. }
  destruct (pass_processed api online w done body Hrep Hevs) as [Hp Hn].
  rewrite Hp, Hn. split; [|split; [|split]].
  - unfold replay_order in Hpre.
    apply prefix_app_split in Hpre as (dc & r & -> & Hdc & Hr).
    apply prefix_app_split in Hr as (du & dd & -> & Hdu & Hdd).
    apply replay_split in Hrep as (ec & er & -> & Hrc & Hrr).
    apply replay_split in Hrr as (eu & ed & -> & Hru & Hrd).
    exists (net_calls ec), (net_calls eu), (net_calls ed).
    rewrite !net_calls_app. split; [done|].
    assert (forall k d, d `prefix_of` by_kind k (sort_by_ts (outbox w)) ->
                        Forall (fun o => op o = k) d) as Hkind.
    { intros k d [t Ht]. pose proof (by_kind_kind k (sort_by_ts (outbox w))) as H.
      rewrite Ht in H. by apply Forall_app in H as [? _]. }
    repeat split; eapply replay_calls_kind; eauto.
  - exists body. split; [done|]. destruct Hevs; auto.
  - done.
  - intros k. eapply StronglySorted_prefix.
    + apply by_kind_prefix, Hpre.
    + rewrite by_kind_replay_order.
      apply StronglySorted_filter_list, sort_by_ts_sorted.
Qed.

(* ================================================================== *)
(** ** normalizeTask *)
(* ================================================================== *)

(** [String()] throws on exactly the unconvertible values. *)
Lemma js_String_None (v : JsValue) :
  js_String v = None <-> unconvertible v = true.
Proof.
  revert v. fix IH 1. intros v.
  destruct v as [| |b|n|s|xs|fs]; simpl.
  1-5: try destruct b; split; discriminate.
  - induction xs as [|x r IHr]; simpl; [split; discriminate|].
    assert ((if nullish x then Some "" else js_String x) = None
            <-> unconvertible x = true) as Hel.
    { rewrite <- (IH x). destruct x; simpl; try done; split; discriminate. }
    destruct (if nullish x then Some "" else js_String x) as [sx|].
    + destruct (unconvertible x);
        [by destruct Hel as [_ Hel]; specialize (Hel eq_refl)|].
      simpl. destruct r as [|y r']; [split; discriminate|].
      rewrite <- IHr.
      match goal with
      | |- context [match ?j with Some _ => _ | None => _ end] => destruct j
      end; [split; discriminate|done].
    + destruct Hel as [Hel _]. rewrite (Hel eq_refl). done.
  - destruct (has_key "toString" fs); [done | split; discriminate].
Qed.

Lemma js_String_Some (v : JsValue) :
  unconvertible v = false -> exists s, js_String v = Some s.
Proof.
  intros Hv. destruct (js_String v) as [s|] eqn:E; [by exists s|].
  apply js_String_None in E. congruence.
Qed.

(** [normalizeTask] throws exactly when the id or the title it is to
    convert is unconvertible. *)
Lemma normalizeTask_None (x : JsValue) :
  normalizeTask x = None <->
  unconvertible (coalesce (opt_get x "_id") (opt_get x "id"))
  || unconvertible (coalesce (opt_get x "title") (JStr sin_titulo)) = true.
Proof.
  unfold normalizeTask. rewrite orb_true_iff, <- !js_String_None.
  destruct (js_String (coalesce (opt_get x "_id") (opt_get x "id")));
    destruct (js_String (coalesce (opt_get x "title") (JStr sin_titulo)));
    simpl; intuition congruence.
Qed.

(** What [normalizeTask] returns, when it returns. *)
Lemma normalizeTask_Some (x : JsValue) t :
  normalizeTask x = Some t <->
  exists id ti,
    js_String (coalesce (opt_get x "_id") (opt_get x "id")) = Some id /\
    js_String (coalesce (opt_get x "title") (JStr sin_titulo)) = Some ti /\
    t = {| _id := id;
           title := ti;
           description := coalesce (opt_get x "description") (JStr "");
           status :=
             if strict_eq_str (opt_get x "status") "Completada"
                || strict_eq_str (opt_get x "status") "En Progreso"
                || strict_eq_str (opt_get x "status") "Pendiente"
             then opt_get x "status"
             else JStr "Pendiente";
           task_clienteId := opt_get x "clienteId";
           createdAt := opt_get x "createdAt" |}.
Proof.
  unfold normalizeTask.
  destruct (js_String (coalesce (opt_get x "_id") (opt_get x "id")))
    as [id|]; simpl.
  - destruct (js_String (coalesce (opt_get x "title") (JStr sin_titulo)))
      as [ti|]; simpl.
    + split.
      * intros [= <-]. by exists id, ti.
      * by intros (? & ? & [= <-] & [= <-] & ->).
    + split; [done|]. by intros (? & ? & _ & ? & _).
  - split; [done|]. by intros (? & ? & ? & _).
Qed.

(** C7, counterexample.  [normalizeTask] does not produce an entity for
    every raw input: an id that is an object with a [toString] property of
    its own, or a title that is an array holding one, makes [String()]
    throw, and no task is returned. *)
Lemma normalizeTask_not_total :
  normalizeTask (JObj [("_id", JObj [("toString", JNum 1)])]) = None
  /\ normalizeTask
       (JObj [("_id", JStr "srv-1");
              ("title", JArr [JStr "a"; JObj [("toString", JNull)]])])
     = None
  /\ ~ (forall x : JsValue, exists t, normalizeTask x = Some t).
Proof.
  split; [reflexivity|]. split; [reflexivity|].
  intros H.
  destruct (H (JObj [("_id", JObj [("toString", JNum 1)])])) as [t Ht].
  discriminate.
Qed.

(** C7, amended.  [normalizeTask] returns a task for every input except
    those whose id ([_id], or [id] when [_id] is missing) or title is
    unconvertible, on which it throws.  In the task it returns, a missing
    ([undefined] or [null]) title has become the placeholder and any other
    title its string form; the id is the string form of [_id], or of [id]
    when [_id] is missing, and is that very string when the field holds
    one; the status is one of the three enumerated values: the input's own
    when that is one of them, [Pendiente] otherwise; a missing description
    has become the empty string. *)
Theorem normalizeTask_well_formed (x : JsValue) :
  (unconvertible (coalesce (opt_get x "_id") (opt_get x "id"))
   || unconvertible (coalesce (opt_get x "title") (JStr sin_titulo)) = true ->
   normalizeTask x = None) /\
  (unconvertible (coalesce (opt_get x "_id") (opt_get x "id"))
   || unconvertible (coalesce (opt_get x "title") (JStr sin_titulo)) = false ->
   exists t, normalizeTask x = Some t) /\
  forall t, normalizeTask x = Some t ->
    (nullish (opt_get x "title") = true -> title t = sin_titulo) /\
    (nullish (opt_get x "title") = false ->
       js_String (opt_get x "title") = Some (title t)) /\
    (nullish (opt_get x "_id") = false ->
       js_String (opt_get x "_id") = Some (_id t)) /\
    (nullish (opt_get x "_id") = true ->
       js_String (opt_get x "id") = Some (_id t)) /\
    (forall s, opt_get x "_id" = JStr s -> _id t = s) /\
    (forall s, nullish (opt_get x "_id") = true -> opt_get x "id" = JStr s ->
       _id t = s) /\
    (exists st, status_of (status t) = Some st) /\
    (forall st, status_of (opt_get x "status") = Some st ->
       status t = opt_get x "status") /\
    (status_of (opt_get x "status") = None ->
       status t = JStr "Pendiente") /\
    (nullish (opt_get x "description") = true ->
       description t = JStr "").
Proof.
  split; [apply normalizeTask_None|]. split.
  { intros Hc. destruct (normalizeTask x) as [t|] eqn:E; [by exists t|].
    apply normalizeTask_None in E. congruence. }
  intros t (id & ti & Hid & Hti & ->)%normalizeTask_Some.
  unfold coalesce in *; simpl.
  repeat split.
  - intros Hn. rewrite Hn in Hti. simpl in Hti. congruence.
  - intros Hn. by rewrite Hn in Hti.
  - intros Hn. by rewrite Hn in Hid.
  - intros Hn. by rewrite Hn in Hid.
  - intros s Hs. rewrite Hs in Hid. simpl in Hid. congruence.
  - intros s Hn Hs. rewrite Hn, Hs in Hid. simpl in Hid. congruence.
  - unfold strict_eq_str, status_of.
    destruct (opt_get x "status") as [| | | |s| |]; simpl; eauto.
    repeat case_bool_decide; subst; simpl; eauto.
  - intros st. unfold strict_eq_str, status_of.
    destruct (opt_get x "status") as [| | | |s| |]; try done.
    repeat case_decide; subst; try done.
  - unfold strict_eq_str, status_of.
    destruct (opt_get x "status") as [| | | |s| |]; try done.
    repeat case_decide; try done.
  - by intros ->.
Qed.

(* ================================================================== *)
(** ** Empty pass, completion event, request bodies *)
(* ================================================================== *)

(** C8. A pass over an empty outbox returns at once: the world it leaves
    is the world it found (outbox, identity map, cache, server and trace),
    so it made no network call and produced no event at all. *)
Theorem empty_outbox_pass api online (w : World (srv api)) :
  outbox w = [] ->
  (syncNow api online w).2 = w
  /\ pass_events w (syncNow api online w).2 = []
  /\ net_calls (pass_events w (syncNow api online w).2) = [].
Proof.
  intros Hempty.
  assert ((syncNow api online w).2 = w) as Hw.
  { unfold syncNow, getOutbox. rewrite Hempty. by destruct online. }
  rewrite Hw. unfold pass_events. by rewrite drop_all.
Qed.

Lemma empty_outbox_pass_witness :
  (syncNow script_api true (world_of [] ∅ ∅ [Some JNull])).2
    = world_of [] ∅ ∅ [Some JNull]
  /\ pass_events (world_of [] ∅ ∅ [Some JNull])
       (syncNow script_api true (world_of [] ∅ ∅ [Some JNull])).2 = []
  /\ net_calls
       (pass_events (world_of [] ∅ ∅ [Some JNull])
          (syncNow script_api true (world_of [] ∅ ∅ [Some JNull])).2) = [].
Proof.
  apply (empty_outbox_pass script_api true (world_of [] ∅ ∅ [Some JNull])).
  reflexivity.
Defined.

Lemma completes_iff_exit api online (w : World (srv api)) :
  completes_all_phases api online w <-> (syncNow api online w).1 = ExitCompleted.
Proof.
  unfold completes_all_phases, syncNow, getOutbox. split.
  - intros (-> & Hne & w1 & w2 & w3 & H1 & H2 & H3). simpl.
    destruct (sort_by_ts (outbox w)) as [|x s] eqn:Hs.
    { by apply sort_by_ts_nil_inv in Hs. }
    by rewrite H1, H2, H3.
  - destruct online; simpl; [|done].
    destruct (sort_by_ts (outbox w)) as [|x s] eqn:Hs; [done|].
    assert (outbox w <> []) as Hne.
    { intros H. rewrite H in Hs. discriminate. }
    rewrite <- Hs. clear Hs x s.
    destruct (for_each api (process_create api) _ w) as [[[]|] w1];
      simpl; [discriminate|].
    destruct (for_each api (process_update api) _ w1) as [[[]|] w2] eqn:H2;
      simpl; [discriminate|].
    destruct (for_each api (process_delete api) _ w2) as [[[]|] w3] eqn:H3;
      simpl; [discriminate|].
    intros _. split; [done|]. split; [done|]. by exists w1, w2, w3.
Qed.

(** C9. The completion event is in the events of a pass exactly when the
    pass ran all three loops to the end; then it is the last event and the
    only one of its kind, after every record of the outbox was taken up.  A
    pass that is offline, or that left through the [catch] of any loop,
    leaves no completion event. *)
Theorem completion_event_iff api online (w : World (srv api)) :
  let evs := pass_events w (syncNow api online w).2 in
  (completes_all_phases api online w <-> (SyncComplete ∈ evs)) /\
  (completes_all_phases api online w ->
     exists body, evs = body ++ [SyncComplete] /\ (SyncComplete ∉ body) /\
                  processed evs = replay_order (outbox w)) /\
  (online = false -> SyncComplete ∉ evs) /\
  (forall o e, (syncNow api online w).1 = ExitFailed o e -> SyncComplete ∉ evs).
Proof.
  intros evs. subst evs. rewrite completes_iff_exit.
  destruct (pass_events_shape api online w)
    as (done & body & Hpre & Hrep & Hcase).
  pose proof (replay_no_completion _ _ Hrep) as Hno.
  destruct Hcase as [(Hexit & -> & Hev)|[Hexit Hev]]; rewrite Hev.
  - split; [|split; [|split]].
    + split; [intros _|done]. apply elem_of_app. right. left.
    + intros _. exists body. split; [done|]. split; [done|].
      rewrite processed_app, app_nil_r. by apply replay_processed.
    + intros ->. done.
    + intros o e He. by rewrite He in Hexit.
  - split; [|split; [|split]]; try done.
Qed.

(** Adding or changing a field other than the three that are read leaves
    the request body as it was. *)
Lemma request_body_frame k v d :
  k <> "title" -> k <> "description" -> k <> "status" ->
  request_body (set_field k v d) = request_body d.
Proof.
  intros H1 H2 H3. unfold request_body.
  by rewrite !field_set_field_ne by done.
Qed.

(** C10. Every create request of a pass goes to the collection URL and its
    body is the object made of the [title], [description] and [status] of
    the payload of a create record of the outbox: three fields and no
    other; whatever else the payload carries has no influence on it. *)
Theorem create_request_body api online (w : World (srv api)) :
  Forall (fun e =>
            match e with
            | Post url body =>
                url = "/tasks" /\
                exists o d,
                  o ∈ outbox w /\ op o = OpCreate /\ data o = Some d /\
                  body = JObj [("title", field "title" d);
                               ("description", field "description" d);
                               ("status", field "status" d)]
            | _ => True
            end)
         (pass_events w (syncNow api online w).2)
  /\ (forall k v d,
        k <> "title" -> k <> "description" -> k <> "status" ->
        request_body (set_field k v d) = request_body d).
Proof.
  split; [|apply request_body_frame].
  destruct (pass_events_shape api online w)
    as (done & body & Hpre & Hrep & Hcase).
  assert (Forall (fun e =>
            match e with
            | Post url b =>
                url = "/tasks" /\
                exists o d,
                  o ∈ outbox w /\ op o = OpCreate /\ data o = Some d /\
                  b = request_body d
            | _ => True
            end) body) as Hbody.
  { apply Forall_forall. intros c Hc.
    destruct c as [|url b| | |]; try done.
    destruct (replay_calls _ _ _ Hrep Hc) as [[o [=]]|(o & Ho & Hcall)].
    unfold call_of in Hcall. destruct (op o) eqn:Hk; try done.
    destruct Hcall as (-> & d & Hd & ->). split; [done|].
    exists o, d. split; [|done].
    apply replay_order_elem_of. destruct Hpre as [t ->].
    apply elem_of_app. by left. }
  destruct Hcase as [(_ & _ & ->)|[_ ->]]; [|done].
  apply Forall_app. split; [done|]. by constructor.
Qed.

(* ================================================================== *)
(** ** Replaying a create record *)
(* ================================================================== *)

(** C2, counterexample.  The cache receives the normalized response, not
    the payload: when the server answers with the id alone, the entity
    cached under "srv-9" is titled with the placeholder, not "A". *)
Lemma create_caches_response_not_payload :
  ~ create_effect_as_specified script_api create_A id_only_world.
Proof.
  intros H.
  destruct (H (process_create script_api create_A id_only_world).2
              [("title", JStr "A")] (JObj [("_id", JStr "srv-9")])
              (mkTask "srv-9" sin_titulo (JStr "") (JStr "Pendiente")
                      JUndefined JUndefined)
              eq_refl eq_refl eq_refl eq_refl)
    as (_ & _ & (ent & Hent & Htitle & _) & _).
  vm_compute in Hent. injection Hent as <-. vm_compute in Htitle.
  discriminate.
Qed.

(** C2, amended.  Whenever the replay of a create record succeeds, the
    record had a payload, the server resolved the request, and with [t] the
    normalized response and [S] its id: the identity map sends the client
    id to [S], the cache holds nothing under the client id, it holds the
    normalized response [t] under [S], and no record with the replayed
    record's id is left in the outbox. *)
Theorem create_success_effect api (o : PendingOp) (w w' : World (srv api)) :
  process_create api o w = (Ok (), w') ->
  exists d res t,
    data o = Some d /\
    (api_post api "/tasks" (request_body d) (server w)).1 = Some res /\
    normalizeTask (response_task res) = Some t /\
    _id t <> "" /\ _id t <> clienteId o /\
    mappings w' !! clienteId o = Some (_id t) /\
    tasks w' !! clienteId o = None /\
    tasks w' !! _id t = Some (task_obj t) /\
    outbox w' = filter (fun x => op_id x <> op_id o) (outbox w) /\
    o ∉ outbox w'.
Proof.
  rewrite process_create_run.
  destruct (data o) as [d|]; [|discriminate]. simpl.
  destruct (api_post api "/tasks" (request_body d) (server w)).1
    as [res|] eqn:Hres; [|discriminate].
  destruct (normalizeTask (response_task res)) as [t|] eqn:Ht; [|discriminate].
  destruct (falsy _ || bool_decide _) eqn:Hguard; [discriminate|].
  intros [= <-]. exists d, res, t. split; [done|]. split; [done|].
  split; [done|]. simpl.
  apply orb_false_elim in Hguard as [Hf He]. unfold falsy in Hf.
  apply bool_decide_eq_false in Hf. apply bool_decide_eq_false in He.
  split; [done|]. split; [done|].
  split; [by rewrite lookup_insert_eq|].
  split; [by rewrite lookup_insert_ne, lookup_delete_eq by done|].
  split; [by rewrite lookup_insert_eq|]. split; [done|].
  rewrite list_elem_of_filter. by intros [? _].
Qed.

Lemma create_success_effect_witness :
  exists d res t,
    data create_A = Some d /\
    (api_post script_api "/tasks" (request_body d) (server id_only_world)).1
      = Some res /\
    normalizeTask (response_task res) = Some t /\
    _id t <> "" /\ _id t <> clienteId create_A /\
    mappings (process_create script_api create_A id_only_world).2
      !! clienteId create_A = Some (_id t) /\
    tasks (process_create script_api create_A id_only_world).2
      !! clienteId create_A = None /\
    tasks (process_create script_api create_A id_only_world).2
      !! _id t = Some (task_obj t) /\
    outbox (process_create script_api create_A id_only_world).2
      = filter (fun x => op_id x <> op_id create_A) (outbox id_only_world) /\
    create_A ∉ outbox (process_create script_api create_A id_only_world).2.
Proof.
  apply (create_success_effect script_api create_A id_only_world).
  reflexivity.
Defined.

(** The echo half of the id check: a response whose id is the record's
    client id throws before any store is written. *)
Lemma create_echo_aborts api (o : PendingOp) (w : World (srv api)) d res t :
  data o = Some d ->
  (api_post api "/tasks" (request_body d) (server w)).1 = Some res ->
  normalizeTask (response_task res) = Some t ->
  _id t = clienteId o ->
  (process_create api o w).1 = Thrown InvalidServerId
  /\ outbox (process_create api o w).2 = outbox w
  /\ mappings (process_create api o w).2 = mappings w
  /\ tasks (process_create api o w).2 = tasks w.
Proof.
  intros Hd Hres Ht Hid. rewrite process_create_run, Hd. cbv zeta.
  rewrite Hres, Ht, Hid. rewrite bool_decide_eq_true_2 by done.
  by rewrite orb_true_r.
Qed.

(** A response without [_id] and [id] normalizes to the id "undefined". *)
Lemma normalizeTask_missing_id x t :
  nullish (opt_get x "_id") = true -> opt_get x "id" = JUndefined ->
  normalizeTask x = Some t ->
  _id t = "undefined".
Proof.
  intros Hn Hi (id & ti & Hid & _ & ->)%normalizeTask_Some.
  unfold coalesce in Hid. rewrite Hn, Hi in Hid. simpl in *. congruence.
Qed.

(** Such a response passes the id check of the create loop: the client id
    is mapped to "undefined" and the record leaves the outbox. *)
Lemma create_without_server_id api (o : PendingOp) (w : World (srv api)) d res :
  data o = Some d ->
  (api_post api "/tasks" (request_body d) (server w)).1 = Some res ->
  nullish (opt_get (response_task res) "_id") = true ->
  opt_get (response_task res) "id" = JUndefined ->
  unconvertible (coalesce (opt_get (response_task res) "title")
                          (JStr sin_titulo)) = false ->
  clienteId o <> "undefined" ->
  (process_create api o w).1 = Ok ()
  /\ mappings (process_create api o w).2 !! clienteId o = Some "undefined"
  /\ is_Some (tasks (process_create api o w).2 !! "undefined")
  /\ outbox (process_create api o w).2
     = filter (fun x => op_id x <> op_id o) (outbox w).
Proof.
  intros Hd Hres Hn Hi Hti Hc. rewrite process_create_run, Hd. cbv zeta.
  rewrite Hres.
  destruct (normalizeTask (response_task res)) as [t|] eqn:Ht.
  2: { apply normalizeTask_None in Ht. unfold coalesce at 1 in Ht.
       rewrite Hn, Hi, Hti in Ht. discriminate. }
  rewrite (normalizeTask_missing_id _ _ Hn Hi Ht).
  rewrite (bool_decide_eq_false_2 ("undefined" = clienteId o)) by done.
  simpl. split; [done|]. split; [by rewrite lookup_insert_eq|].
  split; [|done]. rewrite lookup_insert_eq. by eexists.
Qed.

(** C4, at the failing input.  The response carries no id; the pass
    nevertheless completes: it maps the client id to "undefined", caches an
    entity under "undefined" and empties the outbox. *)
Theorem missing_server_id_not_detected :
  let r := syncNow script_api true no_id_world in
  r.1 = ExitCompleted
  /\ mappings r.2 !! "tmp-1" = Some "undefined"
  /\ (exists t,
       normalizeTask (JObj [("title", JStr "A")]) = Some t /\
       tasks r.2 !! "undefined" = Some (task_obj t))
  /\ outbox r.2 = []
  /\ pass_events no_id_world r.2
     = [Processing create_A;
        Post "/tasks" (request_body [("title", JStr "A")]);
        SyncComplete].
Proof.
  vm_compute. split; [done|]. split; [done|].
  split; [eexists; split; reflexivity|]. done.
Qed.

(* ================================================================== *)
(** ** Orphans, deletes and the fail-stop rule *)
(* ================================================================== *)

Lemma for_each_app api body l1 l2 (w : World (srv api)) :
  for_each api body (l1 ++ l2) w =
  match for_each api body l1 w with
  | (None, w') => for_each api body l2 w'
  | (Some f, w') => (Some f, w')
  end.
Proof.
  revert w. induction l1 as [|o l1 IH]; intros w; simpl; [done|].
  destruct (body o w) as [[[]|e] w1]; [apply IH|done].
Qed.

(** C5. An update record whose client id has no entry in the identity map
    is taken out of the outbox without any network call, the other stores
    and the server being left as they were, and the loop goes on with the
    next record; the same holds for a delete record that has no explicit
    server id either. *)
Theorem orphan_discard api (w : World (srv api)) (o : PendingOp)
    (rest : list PendingOp) :
  mappings w !! clienteId o = None ->
  let w' := mkWorld (filter (fun x => op_id x <> op_id o) (outbox w))
                    (mappings w) (tasks w) (server w)
                    (trace w ++ [Processing o]) in
  (process_update api o w = (Ok (), w')
   /\ for_each api (process_update api) (o :: rest) w
      = for_each api (process_update api) rest w')
  /\ (serverId o = None ->
      process_delete api o w = (Ok (), w')
      /\ for_each api (process_delete api) (o :: rest) w
         = for_each api (process_delete api) rest w')
  /\ net_calls (pass_events w w') = []
  /\ (forall x, x ∈ outbox w' -> op_id x <> op_id o).
Proof.
  intros Hm w'.
  assert (process_update api o w = (Ok (), w')) as Hu.
  { rewrite process_update_run, Hm. reflexivity. }
  assert (serverId o = None -> process_delete api o w = (Ok (), w')) as Hd.
  { intros Hs. rewrite process_delete_run. unfold delete_target.
    rewrite Hs, Hm. simpl. by destruct (negb _). }
  split; [|split; [|split]].
  - split; [done|]. simpl. by rewrite Hu.
  - intros Hs. split; [by apply Hd|]. simpl. by rewrite (Hd Hs).
  - by rewrite (pass_events_app w w' [Processing o]).
  - intros x [Hx _]%list_elem_of_filter. done.
Qed.

Lemma orphan_discard_witness :
  let w := world_of [update_A; delete_orphan] ∅ ∅ [] in
  let w' := mkWorld (filter (fun x => op_id x <> op_id delete_orphan) (outbox w))
                    (mappings w) (tasks w) (server w)
                    (trace w ++ [Processing delete_orphan]) in
  (process_update script_api delete_orphan w = (Ok (), w')
   /\ for_each script_api (process_update script_api) [delete_orphan] w
      = for_each script_api (process_update script_api) [] w')
  /\ (serverId delete_orphan = None ->
      process_delete script_api delete_orphan w = (Ok (), w')
      /\ for_each script_api (process_delete script_api) [delete_orphan] w
         = for_each script_api (process_delete script_api) [] w')
  /\ net_calls (pass_events w w') = []
  /\ (forall x, x ∈ outbox w' -> op_id x <> op_id delete_orphan).
Proof.
  apply (orphan_discard script_api
           (world_of [update_A; delete_orphan] ∅ ∅ []) delete_orphan []).
  reflexivity.
Defined.

(** When a delete record resolves to an id, and to which: the explicit
    server id when there is a non-empty one; otherwise, for a record with a
    client id, what the identity map holds for it.  These are all the cases
    in which the delete loop makes a call. *)
Lemma delete_target_iff (m : gmap string string) (o : PendingOp) id :
  delete_target m o = Some id <->
  id <> "" /\
  (serverId o = Some id
   \/ (falsy_opt (serverId o) = true /\ clienteId o <> ""
       /\ m !! clienteId o = Some id)).
Proof.
  unfold delete_target. rewrite truthy_id_Some.
  destruct (serverId o) as [s|] eqn:Hs; simpl; unfold falsy.
  - destruct (decide (s = "")) as [->|Hne].
    + rewrite bool_decide_eq_true_2 by done. simpl.
      destruct (decide (clienteId o = "")) as [Hc|Hc].
      * rewrite bool_decide_eq_true_2 by done. simpl. split.
        -- intros [[= <-] Hid]. by destruct Hid.
        -- intros [Hid [[= <-]|(_ & Hcc & _)]]; [by destruct Hid|by destruct Hcc].
      * rewrite bool_decide_eq_false_2 by done. simpl. split.
        -- intros [Hm Hid]. split; [done|]. right. done.
        -- intros [Hid [[= <-]|(_ & _ & Hm)]]; [by destruct Hid|done].
    + rewrite bool_decide_eq_false_2 by done. simpl. split.
      * intros [Hm Hid]. split; [done|]. by left.
      * intros [Hid [Hm|(Hf & _)]]; [done|discriminate].
  - destruct (decide (clienteId o = "")) as [Hc|Hc].
    + rewrite bool_decide_eq_true_2 by done. simpl. split.
      * intros [[=] _].
      * intros [_ [[=]|(_ & Hcc & _)]]. by destruct Hcc.
    + rewrite bool_decide_eq_false_2 by done. simpl. split.
      * intros [Hm Hid]. split; [done|]. by right.
      * intros [Hid [[=]|(_ & _ & Hm)]]. done.
Qed.

(** A delete record that resolves to no id is dropped from the outbox
    without a call. *)
Lemma delete_unresolved_discarded api (w : World (srv api)) (o : PendingOp) :
  delete_target (mappings w) o = None ->
  process_delete api o w =
  (Ok (),
   mkWorld (filter (fun x => op_id x <> op_id o) (outbox w))
           (mappings w) (tasks w) (server w) (trace w ++ [Processing o])).
Proof. intros H. by rewrite process_delete_run, H. Qed.

(** C6. A delete record that carries an explicit (non-empty) server id
    [id], or else carries none, has a client id and finds it mapped to
    [id], sends the delete request for [id], whatever else the identity map
    holds.  When the request resolves, the entity [id] leaves the cache and
    the record leaves the outbox; when it is rejected no store is touched,
    the loop ends at this record and so does the pass, with no further
    record taken up and no completion event. *)
Theorem delete_replay api (w : World (srv api)) (o : PendingOp)
    (rest : list PendingOp) (id : string) :
  id <> "" ->
  serverId o = Some id
  \/ (falsy_opt (serverId o) = true /\ clienteId o <> ""
      /\ mappings w !! clienteId o = Some id) ->
  let url := "/tasks/" +:+ id in
  let reply := api_delete api url (server w) in
  let tr := trace w ++ [Processing o; Delete url] in
  match reply.1 with
  | Some _ =>
      process_delete api o w =
      (Ok (),
       mkWorld (filter (fun x => op_id x <> op_id o) (outbox w))
               (mappings w) (base.delete id (tasks w)) reply.2 tr)
  | None =>
      let w' := mkWorld (outbox w) (mappings w) (tasks w) reply.2 tr in
      process_delete api o w = (Thrown Rejected, w')
      /\ for_each api (process_delete api) (o :: rest) w
         = (Some (o, Rejected), w')
      /\ forall w0 w1 w2 pre,
           outbox w0 <> [] ->
           for_each api (process_create api)
             (by_kind OpCreate (sort_by_ts (outbox w0))) w0 = (None, w1) ->
           for_each api (process_update api)
             (by_kind OpUpdate (sort_by_ts (outbox w0))) w1 = (None, w2) ->
           by_kind OpDelete (sort_by_ts (outbox w0)) = pre ++ o :: rest ->
           for_each api (process_delete api) pre w2 = (None, w) ->
           syncNow api true w0 = (ExitFailed o Rejected, w')
  end.
Proof.
  intros Hid Hres url reply tr.
  assert (delete_target (mappings w) o = Some id) as Ht.
  { by apply delete_target_iff. }
  pose proof (process_delete_run api o w) as Hrun.
  rewrite Ht in Hrun. cbv zeta in Hrun. fold url reply tr in Hrun.
  destruct (reply.1) as [res|]; [done|].
  intros w'. split; [done|]. split.
  { simpl. by rewrite Hrun. }
  intros w0 w1 w2 pre Hne H1 H2 Hds Hpre.
  unfold syncNow, getOutbox. cbn [negb].
  destruct (sort_by_ts (outbox w0)) as [|x s] eqn:Hs.
  { by apply sort_by_ts_nil_inv in Hs. }
  rewrite H1, H2, Hds, for_each_app, Hpre. simpl.
  by rewrite Hrun.
Qed.

Lemma delete_replay_witness :
  process_delete script_api delete_explicit explicit_delete_world =
  (Ok (),
   mkWorld [] {[ "tmp-1" := "srv-1" ]}
           (base.delete "srv-7" {[ "srv-7" := JObj [("_id", JStr "srv-7")] ]})
           []
           [Processing delete_explicit; Delete "/tasks/srv-7"]).
Proof.
  apply (delete_replay script_api explicit_delete_world delete_explicit []
           "srv-7").
  - discriminate.
  - left. reflexivity.
Defined.





(* ================================================================== *)
(** ** Worked examples *)
(* ================================================================== *)

Example js_String_samples :
  js_String JUndefined = Some "undefined"
  /\ js_String (JNum 42) = Some "42"
  /\ js_String (JNum (-7)) = Some "-7"
  /\ js_String (JArr [JNum 1; JNull; JArr [JStr "a"; JBool true]])
     = Some "1,,a,true"
  /\ js_String (JObj [("id", JNum 1)]) = Some "[object Object]"
  /\ js_String (JObj [("toString", JNum 1)]) = None
  /\ js_String (JArr [JNum 1; JObj [("toString", JStr "x")]]) = None.
Proof. vm_compute. repeat split. Qed.

(** Numbers print as the engine prints the double they denote: exactly up
    to [2^53], with the shortest digits that identify the double above,
    and in exponent form from [10^21] on. *)
Example Number_toString_samples :
  Number_toString 9007199254740991 = "9007199254740991"
  /\ Number_toString 9007199254740993 = "9007199254740992"
  /\ Number_toString (2 ^ 60) = "1152921504606847000"
  /\ Number_toString (10 ^ 21) = "1e+21"
  /\ Number_toString 123456789012345678901234567890
     = "1.2345678901234568e+29"
  /\ Number_toString (- 10 ^ 400) = "-Infinity".
Proof. vm_compute. repeat split. Qed.

Example normalizeTask_sample :
  normalizeTask (JObj [("id", JNum 7); ("status", JStr "Hecha")])
  = Some (mkTask "7" sin_titulo (JStr "") (JStr "Pendiente")
                 JUndefined JUndefined).
Proof. vm_compute. reflexivity. Qed.

Example sort_by_ts_sample :
  sort_by_ts [update_A; create_B; delete_orphan; create_A]
  = [delete_orphan; create_A; update_A; create_B].
Proof. reflexivity. Qed.

(** The scenario of the specification runs as it describes: the create is
    posted and mapped, the update goes to "srv-9" and retitles the cached
    entity, the orphan delete is dropped without a call, and the outbox
    ends empty. *)
Example scenario_pass :
  let r := syncNow script_api true scenario_world in
  r.1 = ExitCompleted
  /\ outbox r.2 = []
  /\ mappings r.2 !! "tmp-1" = Some "srv-9"
  /\ tasks r.2 !! "tmp-1" = None
  /\ tasks r.2 !! "srv-9"
     = Some (JObj [("_id", JStr "srv-9"); ("title", JStr "A2")])
  /\ net_calls (pass_events scenario_world r.2)
     = [Post "/tasks" (request_body [("title", JStr "A")]);
        Put "/tasks/srv-9" (request_body [("title", JStr "A2")])]
  /\ processed (pass_events scenario_world r.2)
     = [create_A; update_A; delete_orphan].
Proof. vm_compute. repeat split. Qed.

(* ================================================================== *)
(** ** Invariants of a pass *)
(* ================================================================== *)

Lemma for_each_inv api (P : World (srv api) -> Prop) body ops w :
  P w ->
  (forall o w0, o ∈ ops -> P w0 -> P (body o w0).2) ->
  P (for_each api body ops w).2.
Proof.
  revert w. induction ops as [|o ops IH]; intros w Hw Hstep; simpl; [done|].
  pose proof (Hstep o w (list_elem_of_here _ _) Hw) as H1.
  destruct (body o w) as [[[]|e] w1]; simpl in *; [|done].
  apply IH; [done|]. intros o' w0 Ho'. apply Hstep. by right.
Qed.

(** An invariant of the three loop bodies that does not look at the trace
    is an invariant of the pass. *)
Lemma syncNow_inv api (P : World (srv api) -> Prop) online w :
  P w ->
  (forall o w0, o ∈ outbox w -> op o = OpCreate -> P w0 ->
     P (process_create api o w0).2) ->
  (forall o w0, o ∈ outbox w -> op o = OpUpdate -> P w0 ->
     P (process_update api o w0).2) ->
  (forall o w0, o ∈ outbox w -> op o = OpDelete -> P w0 ->
     P (process_delete api o w0).2) ->
  (forall w0 tr, P w0 ->
     P (mkWorld (outbox w0) (mappings w0) (tasks w0) (server w0) tr)) ->
  P (syncNow api online w).2.
Proof.
  intros Hw Hc Hu Hd Htr. unfold syncNow, getOutbox.
  destruct online; simpl; [|done].
  destruct (sort_by_ts (outbox w)) as [|x s] eqn:Hs; [done|].
  rewrite <- Hs. clear Hs x s.
  pose proof (for_each_inv api P (process_create api)
                (by_kind OpCreate (sort_by_ts (outbox w))) w Hw) as H1.
  destruct (for_each api (process_create api) _ w) as [[[o e]|] w1]; simpl in *.
  { apply H1. intros o' w0 [? ?]%by_kind_elem_of. by apply Hc. }
  assert (P w1) as Hw1.
  { apply H1. intros o' w0 [? ?]%by_kind_elem_of. by apply Hc. }
  pose proof (for_each_inv api P (process_update api)
                (by_kind OpUpdate (sort_by_ts (outbox w))) w1 Hw1) as H2.
  destruct (for_each api (process_update api) _ w1) as [[[o e]|] w2]; simpl in *.
  { apply H2. intros o' w0 [? ?]%by_kind_elem_of. by apply Hu. }
  assert (P w2) as Hw2.
  { apply H2. intros o' w0 [? ?]%by_kind_elem_of. by apply Hu. }
  pose proof (for_each_inv api P (process_delete api)
                (by_kind OpDelete (sort_by_ts (outbox w))) w2 Hw2) as H3.
  destruct (for_each api (process_delete api) _ w2) as [[[o e]|] w3]; simpl in *.
  { apply H3. intros o' w0 [? ?]%by_kind_elem_of. by apply Hd. }
  apply Htr. apply H3. intros o' w0 [? ?]%by_kind_elem_of. by apply Hd.
Qed.

(** What each loop body does to the identity map. *)
Lemma process_update_mappings api o (w : World (srv api)) :
  mappings (process_update api o w).2 = mappings w.
Proof.
  rewrite process_update_run. simpl.
  destruct (truthy_id _); [|done].
  destruct (data o); [|done]. simpl.
  destruct (api_put _ _ _ _).1; done.
Qed.

Lemma process_delete_mappings api o (w : World (srv api)) :
  mappings (process_delete api o w).2 = mappings w.
Proof.
  rewrite process_delete_run. simpl.
  destruct (delete_target _ _); [|done]. simpl.
  destruct (api_delete _ _ _).1; done.
Qed.

Lemma process_create_mappings api o (w : World (srv api)) :
  mappings (process_create api o w).2 = mappings w
  \/ exists s, s <> "" /\ s <> clienteId o /\
       mappings (process_create api o w).2 = <[clienteId o := s]> (mappings w).
Proof.
  rewrite process_create_run.
  destruct (data o); [|by left]. cbv zeta.
  destruct (api_post _ _ _ _).1 as [res|]; [|by left].
  destruct (normalizeTask _) as [t|]; [|by left].
  destruct (falsy _ || bool_decide _) eqn:Hg; [by left|].
  right. apply orb_false_elim in Hg as [Hf He].
  apply bool_decide_eq_false in Hf, He. eexists. split; [exact Hf|].
  split; [exact He|]. done.
Qed.

(** X7. The identity map changes only at the client ids of the create records
    of the outbox: every other key reads after the pass as before it. *)
Theorem identity_map_frame api online (w : World (srv api)) (k : string) :
  (forall o, o ∈ outbox w -> op o = OpCreate -> clienteId o <> k) ->
  mappings (syncNow api online w).2 !! k = mappings w !! k.
Proof.
  intros Hk.
  apply (syncNow_inv api (fun w' => mappings w' !! k = mappings w !! k)).
  - done.
  - intros o w0 Ho Hc Hw0.
    destruct (process_create_mappings api o w0) as [->|(s & _ & _ & ->)]; [done|].
    rewrite lookup_insert_ne; [done|]. by apply Hk.
  - intros o w0 _ _ Hw0. by rewrite process_update_mappings.
  - intros o w0 _ _ Hw0. by rewrite process_delete_mappings.
  - done.
Qed.

(** X8. A pass never maps a client id to the empty string or to itself: if no
    entry of the identity map is of that form before, none is after. *)
Theorem identity_map_invariant api online (w : World (srv api)) :
  map_Forall (fun c s => s <> "" /\ s <> c) (mappings w) ->
  map_Forall (fun c s => s <> "" /\ s <> c) (mappings (syncNow api online w).2).
Proof.
  intros Hinv.
  apply (syncNow_inv api
           (fun w' => map_Forall (fun c s => s <> "" /\ s <> c) (mappings w'))).
  - done.
  - intros o w0 _ _ Hw0.
    destruct (process_create_mappings api o w0) as [->|(s & ? & ? & ->)]; [done|].
    by apply map_Forall_insert_2.
  - intros o w0 _ _ Hw0. by rewrite process_update_mappings.
  - intros o w0 _ _ Hw0. by rewrite process_delete_mappings.
  - done.
Qed.

(* ================================================================== *)
(** ** More about the sort *)
(* ================================================================== *)

Lemma insert_by_ts_head o l :
  Forall (fun z => ts o <= ts z) l -> insert_by_ts o l = o :: l.
Proof.
  destruct l as [|x l]; [done|]. intros [Hx _]%Forall_cons. simpl.
  by rewrite (proj2 (Z.leb_le _ _) Hx).
Qed.

Lemma insert_by_ts_filter_out (P : PendingOp -> Prop)
    `{!forall x, Decision (P x)} o l :
  ~ P o -> filter P (insert_by_ts o l) = filter P l.
Proof.
  intros Hno. induction l as [|x l IH]; simpl.
  - by rewrite filter_cons_False.
  - destruct (ts o <=? ts x).
    + by rewrite filter_cons_False.
    + by rewrite !(filter_cons _ x), IH.
Qed.

Lemma insert_by_ts_filter_in (P : PendingOp -> Prop)
    `{!forall x, Decision (P x)} o l :
  StronglySorted ts_le l -> P o ->
  filter P (insert_by_ts o l) = insert_by_ts o (filter P l).
Proof.
  intros Hs Ho. induction l as [|x l IH]; simpl.
  - by rewrite filter_cons_True.
  - apply StronglySorted_cons in Hs as [Hx Hl].
    destruct (Z.leb_spec (ts o) (ts x)) as [Hle|Hlt].
    + rewrite filter_cons_True by done.
      rewrite insert_by_ts_head; [done|].
      apply Forall_forall. intros z [_ Hz]%list_elem_of_filter.
      apply elem_of_cons in Hz as [->|Hz]; [done|].
      eapply Forall_forall in Hx; [|exact Hz]. unfold ts_le in Hx. lia.
    + rewrite !(filter_cons _ x), IH by done.
      destruct (decide (P x)); [|done]. simpl.
      by rewrite (proj2 (Z.leb_gt _ _) Hlt).
Qed.

(** Sorting commutes with dropping records: what is left of an outbox is
    replayed in the order it had in the whole outbox. *)
Lemma sort_by_ts_filter (P : PendingOp -> Prop)
    `{!forall x, Decision (P x)} l :
  sort_by_ts (filter P l) = filter P (sort_by_ts l).
Proof.
  induction l as [|x l IH]; simpl; [done|].
  rewrite filter_cons. destruct (decide (P x)).
  - simpl. rewrite IH, insert_by_ts_filter_in; [done| |done].
    apply sort_by_ts_sorted.
  - by rewrite IH, insert_by_ts_filter_out.
Qed.

Lemma filter_comm {A} (P Q : A -> Prop)
    `{!forall x, Decision (P x), !forall x, Decision (Q x)} (l : list A) :
  filter P (filter Q l) = filter Q (filter P l).
Proof.
  rewrite !list_filter_filter. apply list_filter_iff. intros x. tauto.
Qed.

Lemma replay_order_filter (P : PendingOp -> Prop)
    `{!forall x, Decision (P x)} l :
  replay_order (filter P l) = filter P (replay_order l).
Proof.
  unfold replay_order, by_kind.
  rewrite !filter_app, sort_by_ts_filter.
  by rewrite !(filter_comm P).
Qed.

Lemma replay_order_ids_NoDup l :
  NoDup (op_id <$> l) -> NoDup (op_id <$> replay_order l).
Proof. intros H. by rewrite replay_order_perm. Qed.

(* ================================================================== *)
(** ** More about traces *)
(* ================================================================== *)


Lemma replay_calls_length os evs :
  replay os evs -> (length (net_calls evs) <= length os)%nat.
Proof.
  induction 1 as [|o os evs _ IH|o c os evs Hc _ IH]; simpl; [lia|lia|].
  apply call_of_kind in Hc. unfold net_calls in *. simpl.
  unfold is_call at 1. rewrite Hc. simpl. lia.
Qed.

Lemma filter_all {A} (P : A -> Prop) `{!forall x, Decision (P x)} (l : list A) :
  Forall P l -> filter P l = l.
Proof.
  induction 1 as [|x l Hx _ IH]; [done|].
  by rewrite filter_cons_True, IH.
Qed.

Lemma filter_none {A} (P : A -> Prop) `{!forall x, Decision (P x)} (l : list A) :
  Forall (fun x => ~ P x) l -> filter P l = [].
Proof.
  induction 1 as [|x l Hx _ IH]; [done|].
  by rewrite filter_cons_False, IH.
Qed.

Lemma remove_ids_all l : remove_ids (op_id <$> l) l = [].
Proof.
  unfold remove_ids. apply filter_none, Forall_forall.
  intros x Hx Hn. apply Hn. by apply list_elem_of_fmap_2.
Qed.

Lemma remove_ids_perm l1 l2 :
  l1 ≡ₚ l2 -> remove_ids (op_id <$> l1) l2 = [].
Proof.
  intros Hp. unfold remove_ids. apply filter_none, Forall_forall.
  intros x Hx Hn. apply Hn. apply list_elem_of_fmap_2. by rewrite Hp.
Qed.


Section MorePass.

Context (api : Api).

Abbreviation W := (World (srv api)).


(** X2. After a failed pass the outbox replays from the failed record on. *)
Theorem failed_pass_resumes online (w : W) o e :
  NoDup (op_id <$> outbox w) ->
  (syncNow api online w).1 = ExitFailed o e ->
  exists pre post,
    replay_order (outbox w) = pre ++ o :: post /\
    replay_order (outbox (syncNow api online w).2) = o :: post.
Proof.
  intros Hnd Hexit.
  pose proof (syncNow_shape api online w) as H. rewrite Hexit in H.
  destruct H as (_ & pre & post & evs & Hord & _ & _ & Hout).
  exists pre, post. split; [done|].
  rewrite Hout. unfold remove_ids. rewrite replay_order_filter, Hord.
  apply replay_order_ids_NoDup in Hnd. rewrite Hord, fmap_app in Hnd.
  apply NoDup_app in Hnd as (_ & Hdisj & _).
  rewrite filter_app, filter_none, filter_all; [done|..].
  - apply Forall_forall. intros x Hx Hin.
    apply (Hdisj _ Hin). by apply list_elem_of_fmap_2.
  - apply Forall_forall. intros x Hx Hn. apply Hn.
    by apply list_elem_of_fmap_2.
Qed.

Lemma completed_outbox_empty online (w : W) :
  (syncNow api online w).1 = ExitCompleted ->
  outbox (syncNow api online w).2 = [].
Proof.
  intros Hexit.
  pose proof (syncNow_shape api online w) as H. rewrite Hexit in H.
  destruct H as (_ & _ & evs & _ & _ & Hout).
  rewrite Hout. apply remove_ids_perm, replay_order_perm.
Qed.

(** X3. A pass that runs to the end has taken up every record of the outbox
    exactly once and leaves the outbox empty. *)
Theorem completed_pass_drains_outbox online (w : W) :
  (syncNow api online w).1 = ExitCompleted ->
  outbox (syncNow api online w).2 = []
  /\ processed (pass_events w (syncNow api online w).2) ≡ₚ outbox w.
Proof.
  intros Hexit.
  pose proof (syncNow_shape api online w) as H. rewrite Hexit in H.
  destruct H as (_ & _ & evs & Htr & Hrep & Hout).
  split.
  - by apply completed_outbox_empty.
  - rewrite (pass_events_app _ _ _ Htr), processed_app, app_nil_r.
    rewrite (replay_processed _ _ Hrep). apply replay_order_perm.
Qed.

(** X4. Right after a completed pass another pass finds nothing to do. *)
Theorem second_pass_is_noop online online' (w : W) :
  (syncNow api online w).1 = ExitCompleted ->
  (syncNow api online' (syncNow api online w).2).2 = (syncNow api online w).2
  /\ (syncNow api online' (syncNow api online w).2).1 <> ExitCompleted.
Proof.
  intros Hexit.
  pose proof (completed_outbox_empty online w Hexit) as Hout.
  unfold syncNow at 1 4, getOutbox. rewrite Hout.
  destruct online'; simpl; done.
Qed.

(** X5. No record is taken up twice, and no record makes a second call. *)
Theorem one_call_per_record online (w : W) :
  processed (pass_events w (syncNow api online w).2) ⊆+ outbox w
  /\ (length (net_calls (pass_events w (syncNow api online w).2))
      <= length (processed (pass_events w (syncNow api online w).2)))%nat.
Proof.
  destruct (pass_events_shape api online w)
    as (done & body & Hpre & Hrep & Hcase).
  assert (pass_events w (syncNow api online w).2 = body ++ [SyncComplete]
          \/ pass_events w (syncNow api online w).2 = body) as Hevs.
  { destruct Hcase as [(_ & _ & ?)|[_ ?]]; auto. }
  destruct (pass_processed api online w done body Hrep Hevs) as [-> ->].
  split.
  - rewrite <- (replay_order_perm (outbox w)).
    destruct Hpre as [t ->]. apply submseteq_inserts_r. done.
  - by apply replay_calls_length.
Qed.

(** X6. A pass only ever takes records out of the outbox, and only records
    whose id it has taken up. *)
Theorem outbox_only_shrinks online (w : W) :
  outbox (syncNow api online w).2 `sublist_of` outbox w
  /\ forall x, x ∈ outbox w -> x ∉ outbox (syncNow api online w).2 ->
       op_id x ∈ op_id <$> processed (pass_events w (syncNow api online w).2).
Proof.
  pose proof (syncNow_shape api online w) as H.
  destruct (syncNow api online w) as [[| |o e|] w']; simpl in *.
  - destruct H as [_ ->]. split; [done|]. by intros x Hx Hn.
  - destruct H as (_ & _ & ->). split; [done|]. by intros x Hx Hn.
  - destruct H as (_ & pre & post & evs & Hord & Htr & Hrep & Hout).
    rewrite Hout. split; [apply sublist_filter|].
    intros x Hx Hn. rewrite (pass_events_app _ _ _ Htr).
    rewrite (replay_processed _ _ Hrep), fmap_app. apply elem_of_app. left.
    destruct (decide (op_id x ∈ op_id <$> pre)) as [|Hno]; [done|].
    destruct Hn. by apply elem_of_remove_ids.
  - destruct H as (_ & _ & evs & Htr & Hrep & Hout).
    rewrite Hout. split; [apply sublist_filter|].
    intros x Hx _. rewrite (pass_events_app _ _ _ Htr), processed_app, app_nil_r.
    rewrite (replay_processed _ _ Hrep).
    apply list_elem_of_fmap_2. by apply replay_order_elem_of.
Qed.

(** X13. Records of one kind with the same timestamp are replayed in the order
    in which the outbox stores them. *)
Theorem replay_ties_keep_storage_order (l : list PendingOp) k t :
  filter (fun o => ts o = t) (by_kind k (replay_order l))
  = filter (fun o => ts o = t) (by_kind k l).
Proof.
  rewrite by_kind_replay_order. unfold by_kind.
  by rewrite filter_comm, sort_by_ts_stable, filter_comm.
Qed.

(** X10. The replay of an update record whose client id is mapped. *)
Theorem update_replay (w : W) (o : PendingOp) (rest : list PendingOp) id d :
  mappings w !! clienteId o = Some id -> id <> "" -> data o = Some d ->
  let url := "/tasks/" +:+ id in
  let reply := api_put api url (request_body d) (server w) in
  let tr := trace w ++ [Processing o; Put url (request_body d)] in
  match reply.1 with
  | Some _ =>
      exists ent,
        process_update api o w =
        (Ok (),
         mkWorld (filter (fun x => op_id x <> op_id o) (outbox w))
                 (mappings w) (<[id := ent]> (tasks w)) reply.2 tr)
        /\ opt_get ent "_id" = JStr id
        /\ forall k, k <> "_id" -> opt_get ent k = field k d
  | None =>
      let w' := mkWorld (outbox w) (mappings w) (tasks w) reply.2 tr in
      process_update api o w = (Thrown Rejected, w')
      /\ for_each api (process_update api) (o :: rest) w
         = (Some (o, Rejected), w')
  end.
Proof.
  intros Hm Hid Hd url reply tr.
  pose proof (process_update_run api o w) as Hrun.
  rewrite Hm, Hd in Hrun.
  replace (truthy_id (Some id)) with (Some id) in Hrun
    by (symmetry; by apply truthy_id_Some).
  cbv zeta in Hrun. fold url reply tr in Hrun.
  destruct (reply.1) as [res|].
  - exists (JObj (set_field "_id" (JStr id) d)). split; [done|].
    split; simpl; [apply field_set_field|].
    intros k Hk. by apply field_set_field_ne.
  - intros w'. split; [done|]. simpl. by rewrite Hrun.
Qed.

(** X9. A record whose processing throws has written to no store. *)
Theorem failed_record_no_partial_write (w : W) (o : PendingOp) :
  (forall e, (process_create api o w).1 = Thrown e ->
     outbox (process_create api o w).2 = outbox w
     /\ mappings (process_create api o w).2 = mappings w
     /\ tasks (process_create api o w).2 = tasks w)
  /\ (forall e, (process_update api o w).1 = Thrown e ->
     outbox (process_update api o w).2 = outbox w
     /\ mappings (process_update api o w).2 = mappings w
     /\ tasks (process_update api o w).2 = tasks w)
  /\ (forall e, (process_delete api o w).1 = Thrown e ->
     outbox (process_delete api o w).2 = outbox w
     /\ mappings (process_delete api o w).2 = mappings w
     /\ tasks (process_delete api o w).2 = tasks w).
Proof.
  split; [|split]; intros e.
  - apply (bs_thrown _ _ _ (process_create_spec api)).
  - apply (bs_thrown _ _ _ (process_update_spec api)).
  - apply (bs_thrown _ _ _ (process_delete_spec api)).
Qed.

(** X11. A record without payload: the create loop, and the update loop once
    the id is resolved, throw before any request is made. *)
Theorem record_without_payload (w : W) (o : PendingOp) :
  data o = None ->
  let w' := mkWorld (outbox w) (mappings w) (tasks w) (server w)
                    (trace w ++ [Processing o]) in
  process_create api o w = (Thrown TypeError, w')
  /\ (forall id, mappings w !! clienteId o = Some id -> id <> "" ->
       process_update api o w = (Thrown TypeError, w')).
Proof.
  intros Hd w'. split.
  - by rewrite process_create_run, Hd.
  - intros id Hm Hid. rewrite process_update_run, Hm, Hd.
    replace (truthy_id (Some id)) with (Some id)
      by (symmetry; by apply truthy_id_Some).
    done.
Qed.

(** X12. A delete record with neither a server id nor a client id is dropped
    without a call and without a look at the identity map. *)
Theorem delete_without_refs_discarded (w : W) (o : PendingOp) :
  falsy_opt (serverId o) = true -> clienteId o = "" ->
  process_delete api o w =
  (Ok (),
   mkWorld (filter (fun x => op_id x <> op_id o) (outbox w))
           (mappings w) (tasks w) (server w) (trace w ++ [Processing o])).
Proof.
  intros Hs Hc. apply delete_unresolved_discarded.
  unfold delete_target. rewrite Hs, Hc. simpl.
  unfold truthy_id. by rewrite Hs.
Qed.

End MorePass.

(* ================================================================== *)
(** ** Displayed durations *)
(* ================================================================== *)

Lemma pretty_N_char_digit x : is_digit (pretty_N_char x) = true.
Proof. unfold pretty_N_char. by repeat case_match. Qed.

Lemma pretty_N_go_digits x s :
  all_digits s = true -> all_digits (pretty_N_go x s) = true.
Proof.
  revert s. induction (N.lt_wf_0 x) as [x _ IH]; intros s Hs.
  destruct (decide (x = 0)%N) as [->|Hx]; [by rewrite pretty_N_go_0|].
  rewrite pretty_N_go_step by lia. apply IH.
  - apply N.div_lt; lia.
  - simpl. by rewrite pretty_N_char_digit.
Qed.

Lemma pretty_Z_digits (n : Z) : 0 <= n -> all_digits (pretty n) = true.
Proof.
  intros Hn. destruct n as [|p|p]; [done| |lia].
  unfold pretty, pretty_Z, pretty, pretty_positive, pretty, pretty_N.
  destruct (decide (N.pos p = 0%N)); [done|]. by apply pretty_N_go_digits.
Qed.

Lemma string_app_inv_head (s a b : string) : s +:+ a = s +:+ b -> a = b.
Proof.
  induction s as [|c s IH]; intros H; [exact H|].
  apply IH. change (String c (s +:+ a) = String c (s +:+ b)) in H.
  by injection H.
Qed.

Lemma digits_split a a' b b' :
  all_digits a = true -> all_digits a' = true ->
  no_digit_ahead b = true -> no_digit_ahead b' = true ->
  a +:+ b = a' +:+ b' -> a = a' /\ b = b'.
Proof.
  revert a'. induction a as [|c a IH]; intros [|c' a'] Ha Ha' Hb Hb' Heq.
  - split; [done|exact Heq].
  - change (b = String c' (a' +:+ b')) in Heq. subst b. simpl in *.
    apply andb_prop in Ha' as [Hc _]. by rewrite Hc in Hb.
  - change (String c (a +:+ b) = b') in Heq. subst b'. simpl in *.
    apply andb_prop in Ha as [Hc _]. by rewrite Hc in Hb'.
  - change (String c (a +:+ b) = String c' (a' +:+ b')) in Heq.
    injection Heq as -> Heq. simpl in Ha, Ha'.
    apply andb_prop in Ha as [_ Ha]. apply andb_prop in Ha' as [_ Ha'].
    destruct (IH a' Ha Ha' Hb Hb' Heq) as [-> ->]. done.
Qed.

(** *** Numbers below [2^53] are handled exactly *)

Lemma round_half_even_bounds a b :
  0 <= a -> 0 < b ->
  a `div` b <= round_half_even a b
  /\ 2 * b * round_half_even a b <= 2 * a + b.
Proof.
  intros Ha Hb. unfold round_half_even.
  pose proof (Z.div_mod a b ltac:(lia)) as Hdm.
  pose proof (Z.mod_pos_bound a b Hb) as Hr.
  destruct (_ || _) eqn:E.
  - split; [lia|].
    apply orb_true_iff in E as [E|E].
    + apply Z.ltb_lt in E. nia.
    + apply andb_true_iff in E as [E _]. apply Z.eqb_eq in E. nia.
  - split; [lia|]. nia.
Qed.

Lemma round53_small a : 0 <= a < 2 ^ 53 -> round53 a = a.
Proof.
  intros [H0 H1]. unfold round53.
  destruct (Z.leb_spec (Z.log2 a - 52) 0) as [|He]; [done|].
  exfalso. destruct (decide (a = 0)) as [->|Hne]; [simpl in He; lia|].
  assert (Z.log2 a < 53) by (apply Z.log2_lt_pow2; lia). lia.
Qed.

Lemma round53_large a : 2 ^ 53 <= a -> 2 ^ 53 <= round53 a.
Proof.
  intros Ha. unfold round53.
  assert (53 <= Z.log2 a) as Hl by (apply Z.log2_le_pow2; lia).
  destruct (Z.leb_spec (Z.log2 a - 52) 0) as [|He]; [lia|].
  set (e := Z.log2 a - 52) in *.
  assert (0 < 2 ^ e) as Hp by (apply Z.pow_pos_nonneg; lia).
  destruct (round_half_even_bounds a (2 ^ e) ltac:(lia) Hp) as [Hq _].
  assert (2 ^ 52 <= a `div` 2 ^ e) as Hd.
  { apply Z.div_le_lower_bound; [done|].
    rewrite <- Z.pow_add_r by lia.
    replace (e + 52) with (Z.log2 a) by lia.
    apply Z.log2_spec. lia. }
  assert (2 <= 2 ^ e) as H2.
  { change 2 with (2 ^ 1) at 1. apply Z.pow_le_mono_r; lia. }
  change (2 ^ 53) with (2 ^ 52 * 2). nia.
Qed.

Lemma shortest_small x e s e' :
  0 < x < 2 ^ 53 -> shortest x e = (s, e') -> s * 10 ^ e' = x.
Proof.
  intros Hx. induction e as [|e IH]; simpl.
  { intros [= <- <-]. lia. }
  set (p := 10 ^ Z.of_nat (S e)).
  assert (0 < p) as Hp by (apply Z.pow_pos_nonneg; lia).
  pose proof (Z.div_mod x p ltac:(lia)) as Hdm.
  pose proof (Z.mod_pos_bound x p Hp) as Hr.
  assert (0 <= x `div` p) as Hq by (apply Z.div_pos; lia).
  assert ((round53 ((x `div` p + 1) * p) =? x) = false) as Hhi.
  { apply Z.eqb_neq. intros Heq.
    destruct (decide ((x `div` p + 1) * p < 2 ^ 53)) as [Hs|Hl].
    - rewrite round53_small in Heq by nia. nia.
    - pose proof (round53_large ((x `div` p + 1) * p) ltac:(lia)). lia. }
  rewrite Hhi. simpl. rewrite andb_true_r.
  destruct (Z.eqb_spec (round53 (x `div` p * p)) x) as [Heq|Hne]; [|exact IH].
  intros [= <- <-]. rewrite round53_small in Heq by nia. exact Heq.
Qed.

Lemma Number_toString_small n : 0 <= n < 2 ^ 53 -> Number_toString n = pretty n.
Proof.
  intros Hn. unfold Number_toString.
  destruct (Z.eqb_spec n 0) as [->|Hne]; [done|].
  rewrite (proj2 (Z.ltb_ge n 0)) by lia.
  rewrite Z.abs_eq, round53_small by lia.
  assert (is_infinite n = false) as ->.
  { unfold is_infinite. apply Z.leb_gt. rewrite Z.abs_eq by lia.
    eapply Z.lt_le_trans; [apply Hn|]. apply Z.pow_le_mono_r; lia. }
  destruct (shortest n _) as [s e] eqn:Hs.
  apply shortest_small in Hs; [|lia]. rewrite Hs.
  rewrite (proj2 (Z.ltb_lt n (10 ^ 21))) by lia. done.
Qed.

Lemma floor_quotient_small x :
  0 < x < 2 ^ 53 -> floor_quotient x 60 = x `div` 60.
Proof.
  intros Hx. unfold floor_quotient.
  rewrite Z.abs_eq by lia. rewrite Z.sgn_pos by lia.
  change (Z.log2 60) with 5.
  assert (Z.log2 x < 53) as Hl by (apply Z.log2_lt_pow2; lia).
  set (l := if _ <? _ then _ else _).
  assert (l <= 47) as Hl'.
  { unfold l. destruct (_ <? _); lia. }
  destruct (Z.leb_spec 0 (l - 52)) as [|_]; [lia|].
  set (s := - (l - 52)). assert (5 <= s) as Hs by lia.
  assert (32 <= 2 ^ s) as Hp.
  { change 32 with (2 ^ 5). apply Z.pow_le_mono_r; lia. }
  rewrite Z.mul_1_l.
  destruct (round_half_even_bounds (x * 2 ^ s) 60 ltac:(lia) ltac:(lia))
    as [Hlo Hup].
  pose proof (Z.div_mod x 60 ltac:(lia)) as Hdm.
  pose proof (Z.mod_pos_bound x 60 ltac:(lia)) as Hr.
  assert (x `div` 60 * 2 ^ s <= (x * 2 ^ s) `div` 60) as Hk.
  { apply Z.div_le_lower_bound; [lia|]. nia. }
  symmetry. apply (Z.div_unique_pos _ _ _
                     (round_half_even (x * 2 ^ s) 60 - x `div` 60 * 2 ^ s)).
  - split; [lia|]. nia.
  - lia.
Qed.

(** On safe integers [formatTime] is integer division and remainder. *)
Lemma formatTime_exact m :
  0 <= m < 2 ^ 53 ->
  Dashboard.formatTime m =
  if m =? 0 then "0m"
  else
    let hrs := m `div` 60 in
    let mins := m `rem` 60 in
    if 0 <? hrs
    then if 0 <? mins
         then pretty hrs +:+ "h " +:+ pretty mins +:+ "m"
         else pretty hrs +:+ "h"
    else pretty mins +:+ "m".
Proof.
  intros Hm. unfold Dashboard.formatTime, Number_of.
  destruct (Z.eqb_spec m 0) as [->|Hne]; [done|].
  rewrite Z.abs_eq, round53_small, Z.sgn_pos, Z.mul_1_l by lia.
  rewrite (proj2 (Z.eqb_neq m 0)) by done.
  assert (is_infinite m = false) as ->.
  { unfold is_infinite. apply Z.leb_gt. rewrite Z.abs_eq by lia.
    eapply Z.lt_le_trans; [apply Hm|]. apply Z.pow_le_mono_r; lia. }
  rewrite floor_quotient_small by lia. cbv zeta.
  assert (0 <= m `div` 60 < 2 ^ 53) as Hq.
  { split; [apply Z.div_pos; lia|].
    apply Z.div_lt_upper_bound; lia. }
  assert (0 <= m `rem` 60 < 2 ^ 53) as Hr.
  { rewrite Z.rem_mod_nonneg by lia.
    pose proof (Z.mod_pos_bound m 60 ltac:(lia)). lia. }
  by rewrite !Number_toString_small by done.
Qed.

(** The three shapes of a displayed duration. *)
Lemma formatTime_minutes m :
  0 <= m < 60 -> Dashboard.formatTime m = pretty m +:+ "m".
Proof.
  intros Hm. rewrite formatTime_exact by lia. cbv zeta.
  destruct (Z.eqb_spec m 0) as [->|Hne]; [done|].
  rewrite Z.div_small, Z.rem_small by lia. simpl. done.
Qed.

Lemma formatTime_hours m :
  60 <= m < 2 ^ 53 -> m `mod` 60 = 0 ->
  Dashboard.formatTime m = pretty (m `div` 60) +:+ "h".
Proof.
  intros Hm Hr. rewrite formatTime_exact by lia. cbv zeta.
  destruct (Z.eqb_spec m 0) as [->|Hne]; [lia|].
  rewrite Z.rem_mod_nonneg, Hr by lia.
  assert (0 < m `div` 60) as Hh by (apply Z.div_str_pos; lia).
  rewrite (proj2 (Z.ltb_lt _ _) Hh). done.
Qed.

Lemma formatTime_hours_minutes m :
  60 <= m < 2 ^ 53 -> 0 < m `mod` 60 ->
  Dashboard.formatTime m
  = pretty (m `div` 60) +:+ "h " +:+ pretty (m `mod` 60) +:+ "m".
Proof.
  intros Hm Hr. rewrite formatTime_exact by lia. cbv zeta.
  destruct (Z.eqb_spec m 0) as [->|Hne]; [lia|].
  rewrite Z.rem_mod_nonneg by lia.
  assert (0 < m `div` 60) as Hh by (apply Z.div_str_pos; lia).
  rewrite (proj2 (Z.ltb_lt _ _) Hh), (proj2 (Z.ltb_lt _ _) Hr). done.
Qed.

(** The display of a duration that is a safe integer, cut after its leading
    number. *)
Lemma formatTime_shape m :
  0 <= m < 2 ^ 53 ->
  exists a b,
    Dashboard.formatTime m = a +:+ b /\
    all_digits a = true /\ no_digit_ahead b = true /\
    ((m < 60 /\ a = pretty m /\ b = "m")
     \/ (60 <= m /\ m `mod` 60 = 0 /\ a = pretty (m `div` 60) /\ b = "h")
     \/ (60 <= m /\ 0 < m `mod` 60 /\ a = pretty (m `div` 60)
         /\ b = "h " +:+ pretty (m `mod` 60) +:+ "m")).
Proof.
  intros Hm.
  destruct (decide (m < 60)) as [Hs|Hl].
  - exists (pretty m), "m". split; [apply formatTime_minutes; lia|].
    split; [apply pretty_Z_digits; lia|]. split; [done|]. left. done.
  - assert (0 <= m `mod` 60 < 60) as Hr by (apply Z.mod_pos_bound; lia).
    assert (0 <= m `div` 60) as Hq by (apply Z.div_pos; lia).
    destruct (decide (m `mod` 60 = 0)) as [H0|Hp].
    + exists (pretty (m `div` 60)), "h".
      split; [apply formatTime_hours; lia|].
      split; [by apply pretty_Z_digits|]. split; [done|].
      right. left. split; [lia|done].
    + exists (pretty (m `div` 60)), ("h " +:+ pretty (m `mod` 60) +:+ "m").
      split; [apply formatTime_hours_minutes; lia|].
      split; [by apply pretty_Z_digits|]. split; [done|].
      right. right. split; [lia|]. split; [lia|done].
Qed.

(** X16. Two different durations that are non-negative safe integers (whole
    minutes below [2^53], on which the arithmetic of [formatTime] is exact)
    are never displayed alike. *)
Theorem formatTime_injective (m n : Z) :
  0 <= m < 2 ^ 53 -> 0 <= n < 2 ^ 53 ->
  Dashboard.formatTime m = Dashboard.formatTime n -> m = n.
Proof.
  intros Hm Hn Heq.
  destruct (formatTime_shape m Hm) as (a & b & Hfm & Ha & Hb & Hcm).
  destruct (formatTime_shape n Hn) as (a' & b' & Hfn & Ha' & Hb' & Hcn).
  rewrite Hfm, Hfn in Heq.
  destruct (digits_split a a' b b' Ha Ha' Hb Hb' Heq) as [Haa Hbb].
  assert (0 <= m `mod` 60 < 60) as Hrm by (apply Z.mod_pos_bound; lia).
  assert (0 <= n `mod` 60 < 60) as Hrn by (apply Z.mod_pos_bound; lia).
  pose proof (Z.div_mod m 60 ltac:(lia)) as Hdm.
  pose proof (Z.div_mod n 60 ltac:(lia)) as Hdn.
  destruct Hcm as [(? & -> & ->)|[(? & ? & -> & ->)|(? & ? & -> & ->)]];
    destruct Hcn as [(? & -> & ->)|[(? & ? & -> & ->)|(? & ? & -> & ->)]];
    try discriminate.
  - by apply (inj pretty).
  - apply (inj pretty) in Haa. lia.
  - apply (inj pretty) in Haa.
    apply string_app_inv_head in Hbb.
    assert (pretty (m `mod` 60) = pretty (n `mod` 60)) as Hr.
    { eapply (digits_split _ _ "m" "m"); [..|exact Hbb]; try done;
        apply pretty_Z_digits; lia. }
    apply (inj pretty) in Hr. lia.
Qed.

Lemma formatTime_injective_witness :
  Dashboard.formatTime 90 = "1h 30m" /\ 90 = 60 + 30.
Proof.
  split; [vm_compute; reflexivity |].
  apply (formatTime_injective 90 (60 + 30));
    [lia | lia | vm_compute; reflexivity].
Defined.

(** Above [2^53] the display follows the double the engine holds, not the
    numeral. *)
Example formatTime_samples :
  Dashboard.formatTime 0 = "0m"
  /\ Dashboard.formatTime 45 = "45m"
  /\ Dashboard.formatTime 120 = "2h"
  /\ Dashboard.formatTime (- 90) = "-30m"
  /\ Dashboard.formatTime (10 ^ 21) = "16666666666666666000h 40m"
  /\ Dashboard.formatTime (2 ^ 53 + 1) = "150119987579016h 32m".
Proof. vm_compute. repeat split. Qed.

(* ================================================================== *)
(** ** The dashboard's handlers *)
(* ================================================================== *)

(** The status the clamp of [normalizeTask] settles on is one it lets
    through. *)
Lemma status_clamp_stable (s0 : JsValue) :
  let v := if strict_eq_str s0 "Completada" || strict_eq_str s0 "En Progreso"
              || strict_eq_str s0 "Pendiente"
           then s0 else JStr "Pendiente" in
  (if strict_eq_str v "Completada" || strict_eq_str v "En Progreso"
      || strict_eq_str v "Pendiente"
   then v else JStr "Pendiente") = v.
Proof.
  unfold strict_eq_str.
  destruct s0 as [| | | |s| |]; simpl; try done.
  destruct (bool_decide (s = "Completada")) eqn:H1; simpl.
  { by rewrite H1. }
  destruct (bool_decide (s = "En Progreso")) eqn:H2; simpl.
  { by rewrite H1, H2. }
  destruct (bool_decide (s = "Pendiente")) eqn:H3; simpl.
  { by rewrite H1, H2, H3. }
  done.
Qed.

(** What the dashboard's [normalizeTask] returns, when it returns. *)
Lemma Dashboard_normalizeTask_Some (x : JsValue) st :
  Dashboard.normalizeTask x = Some st <->
  exists id ti,
    js_String (coalesce (opt_get x "_id") (opt_get x "id")) = Some id /\
    js_String (coalesce (opt_get x "title") (JStr sin_titulo)) = Some ti /\
    st = [("_id", JStr id);
          ("title", JStr ti);
          ("description", coalesce (opt_get x "description") (JStr ""));
          ("status",
           if strict_eq_str (opt_get x "status") "Completada"
              || strict_eq_str (opt_get x "status") "En Progreso"
              || strict_eq_str (opt_get x "status") "Pendiente"
           then opt_get x "status"
           else JStr "Pendiente");
          ("clienteId", opt_get x "clienteId");
          ("createdAt", opt_get x "createdAt");
          ("deleted", JBool (truthy (opt_get x "deleted")));
          ("estimatedTime", coalesce (opt_get x "estimatedTime") (JNum 0));
          ("actualTime", coalesce (opt_get x "actualTime") (JNum 0));
          ("isTracking", JBool (truthy (opt_get x "isTracking")));
          ("startTime", coalesce (opt_get x "startTime") JNull)].
Proof.
  unfold Dashboard.normalizeTask.
  destruct (js_String (coalesce (opt_get x "_id") (opt_get x "id")))
    as [id|]; simpl.
  - destruct (js_String (coalesce (opt_get x "title") (JStr sin_titulo)))
      as [ti|]; simpl.
    + split.
      * intros [= <-]. by exists id, ti.
      * by intros (? & ? & [= <-] & [= <-] & ->).
    + split; [done|]. by intros (? & ? & _ & ? & _).
  - split; [done|]. by intros (? & ? & ? & _).
Qed.

(** Where the dashboard's copy returns, so does the one of [sync.ts], with
    the same id and the same shared fields. *)
Lemma Dashboard_normalizeTask_agrees (x : JsValue) st :
  Dashboard.normalizeTask x = Some st ->
  exists t,
    normalizeTask x = Some t /\
    Dashboard.task_id st = _id t /\
    forall k, k ∈ ["_id"; "title"; "description"; "status"; "clienteId";
                   "createdAt"] ->
      field k st = opt_get (task_obj t) k.
Proof.
  intros (id & ti & Hid & Hti & ->)%Dashboard_normalizeTask_Some.
  eexists. split.
  { apply normalizeTask_Some. exists id, ti. by repeat split. }
  split; [done|].
  intros k Hk. repeat (apply elem_of_cons in Hk as [->|Hk]; [done|]).
  by apply elem_of_nil in Hk.
Qed.

Section DashboardFacts.

Context (api : Api).

Abbreviation W := (World (srv api)).

Lemma syncTaskToServer_run online uuid now task (w : W) :
  Dashboard.syncTaskToServer api online uuid now task w =
  let m := mappings w !! Dashboard.clienteId_or_empty task in
  let id := match m with Some s => JStr s | None => field "_id" task end in
  let o := Dashboard.pending_update uuid now task in
  let queued := mkWorld (outbox w ++ [o]) (mappings w) (tasks w) (server w)
                        (trace w) in
  if falsy_opt m && (negb (truthy id) || strict_eq_str id "undefined")
  then (Ok (), queued)
  else if online
  then match js_String id with
       | None => (Ok (), queued)
       | Some ref =>
           let url := "/tasks/" +:+ ref in
           let reply := api_put api url (Dashboard.edit_body task) (server w) in
           let tr := trace w ++ [Put url (Dashboard.edit_body task)] in
           match reply.1 with
           | Some _ =>
               (Ok (), mkWorld (outbox w) (mappings w) (tasks w) reply.2 tr)
           | None =>
               (Ok (),
                mkWorld (outbox w ++ [o]) (mappings w) (tasks w) reply.2 tr)
           end
       end
  else (Ok (), queued).
Proof.
  unfold Dashboard.syncTaskToServer, sync_bind, getMapping, read_world.
  cbv zeta. cbn [fst snd].
  destruct (falsy_opt _ && _); [done|].
  destruct online; [|done].
  unfold sync_catch, sync_bind, js_try.
  destruct (js_String _) as [ref|]; [|done].
  unfold sync_ret, put.
  destruct (api_put api _ _ (server w)) as [[res|] s']; done.
Qed.

(** One single-record pass, worked out. *)
Lemma syncNow_single_update (w : W) o :
  op o = OpUpdate -> outbox w = [o] ->
  syncNow api true w =
  match process_update api o w with
  | (Ok _, w') =>
      (ExitCompleted,
       mkWorld (outbox w') (mappings w') (tasks w') (server w')
               (trace w' ++ [SyncComplete]))
  | (Thrown e, w') => (ExitFailed o e, w')
  end.
Proof.
  intros Hk Ho. unfold syncNow, getOutbox. rewrite Ho. simpl.
  unfold by_kind. rewrite !filter_cons, !filter_nil, Hk. simpl.
  destruct (process_update api o w) as [[[]|e] w']; done.
Qed.

Lemma syncNow_single_delete (w : W) o :
  op o = OpDelete -> outbox w = [o] ->
  syncNow api true w =
  match process_delete api o w with
  | (Ok _, w') =>
      (ExitCompleted,
       mkWorld (outbox w') (mappings w') (tasks w') (server w')
               (trace w' ++ [SyncComplete]))
  | (Thrown e, w') => (ExitFailed o e, w')
  end.
Proof.
  intros Hk Ho. unfold syncNow, getOutbox. rewrite Ho. simpl.
  unfold by_kind. rewrite !filter_cons, !filter_nil, Hk. simpl.
  destruct (process_delete api o w) as [[[]|e] w']; done.
Qed.

Lemma syncNow_single_create (w : W) o :
  op o = OpCreate -> outbox w = [o] ->
  syncNow api true w =
  match process_create api o w with
  | (Ok _, w') =>
      (ExitCompleted,
       mkWorld (outbox w') (mappings w') (tasks w') (server w')
               (trace w' ++ [SyncComplete]))
  | (Thrown e, w') => (ExitFailed o e, w')
  end.
Proof.
  intros Hk Ho. unfold syncNow, getOutbox. rewrite Ho. simpl.
  unfold by_kind. rewrite !filter_cons, !filter_nil, Hk. simpl.
  destruct (process_create api o w) as [[[]|e] w']; done.
Qed.

Lemma process_create_accepted (w : W) o d res t :
  data o = Some d ->
  (api_post api "/tasks" (request_body d) (server w)).1 = Some res ->
  normalizeTask (response_task res) = Some t ->
  _id t <> "" ->
  _id t <> clienteId o ->
  process_create api o w =
  (Ok (),
   mkWorld (filter (fun x => op_id x <> op_id o) (outbox w))
           (<[clienteId o := _id t]> (mappings w))
           (<[_id t := task_obj t]> (base.delete (clienteId o) (tasks w)))
           (api_post api "/tasks" (request_body d) (server w)).2
           (trace w ++ [Processing o; Post "/tasks" (request_body d)])).
Proof.
  intros Hd Hres Ht Hne Hnc. rewrite process_create_run, Hd. cbv zeta.
  rewrite Hres, Ht. unfold falsy.
  rewrite (bool_decide_eq_false_2 _ Hne), (bool_decide_eq_false_2 _ Hnc).
  done.
Qed.

Lemma filter_own_id (o : PendingOp) :
  filter (fun x => op_id x <> op_id o) [o] = [].
Proof. rewrite filter_cons_False; [done|]. by intros H. Qed.

(** X17. An edit is sent or queued, never both and never neither.  The
    handler returns normally and leaves identity map and cache alone, and
    exactly one of two things has happened.  Sent: it was online, made one
    PUT, to the task URL of the mapped id or else of the task's own id, the
    server accepted it and the outbox is as it was.  Queued: exactly one
    update record carrying the task was appended to the outbox, and either
    no request was made at all and the server is untouched, or it was
    online and the one PUT it made was rejected.  Offline no request is
    made. *)
Theorem edit_sent_or_queued online uuid now task (w : W) :
  let r := Dashboard.syncTaskToServer api online uuid now task w in
  let body := Dashboard.edit_body task in
  let id := match mappings w !! Dashboard.clienteId_or_empty task with
            | Some s => JStr s
            | None => field "_id" task
            end in
  r.1 = Ok ()
  /\ mappings r.2 = mappings w /\ tasks r.2 = tasks w
  /\ ((online = true /\ outbox r.2 = outbox w /\
       exists ref,
         js_String id = Some ref /\
         pass_events w r.2 = [Put ("/tasks/" +:+ ref) body] /\
         is_Some (api_put api ("/tasks/" +:+ ref) body (server w)).1 /\
         server r.2 = (api_put api ("/tasks/" +:+ ref) body (server w)).2)
      \/ (outbox r.2 = outbox w ++ [Dashboard.pending_update uuid now task] /\
          ((pass_events w r.2 = [] /\ server r.2 = server w)
           \/ (online = true /\
               exists ref,
                 js_String id = Some ref /\
                 pass_events w r.2 = [Put ("/tasks/" +:+ ref) body] /\
                 (api_put api ("/tasks/" +:+ ref) body (server w)).1 = None /\
                 server r.2
                 = (api_put api ("/tasks/" +:+ ref) body (server w)).2)) /\
          (online = false -> pass_events w r.2 = [] /\ server r.2 = server w)))
  /\ outbox w <> outbox w ++ [Dashboard.pending_update uuid now task].
Proof.
  intros r body id. subst r.
  assert (outbox w <> outbox w ++ [Dashboard.pending_update uuid now task])
    as Hne.
  { intros Heq. apply (f_equal length) in Heq.
    rewrite length_app in Heq. simpl in Heq. lia. }
  assert (pass_events w
            (mkWorld (outbox w ++ [Dashboard.pending_update uuid now task])
                     (mappings w) (tasks w) (server w) (trace w)) = [])
    as Hquiet.
  { unfold pass_events. simpl. by rewrite drop_all. }
  rewrite syncTaskToServer_run. cbv zeta. fold id body.
  destruct (falsy_opt _ && _).
  { repeat split; try done. right. split; [done|].
    split; [left; by split|intros _; by split]. }
  destruct online.
  - destruct (js_String id) as [ref|] eqn:Hid.
    2: { repeat split; try done. right. split; [done|].
         split; [left; by split|intros _; by split]. }
    destruct (api_put api _ _ (server w)).1 as [res|] eqn:Hres; simpl.
    + repeat split; try done. left. split; [done|]. split; [done|].
      exists ref. split; [done|]. split; [by apply pass_events_app|].
      split; [by rewrite Hres|done].
    + repeat split; try done. right. split; [done|]. split; [|done].
      right. split; [done|]. exists ref. split; [done|].
      split; [by apply pass_events_app|]. done.
  - repeat split; try done. right. split; [done|].
    split; [left; by split|intros _; by split].
Qed.

(** X18. An edit made offline on a task whose client id is mapped: the next
    pass puts it to the mapped server id, with the three replayed fields. *)
Theorem offline_edit_replayed uuid now task c s (w : W) :
  outbox w = [] ->
  field "clienteId" task = JStr c ->
  mappings w !! c = Some s -> s <> "" ->
  let o := Dashboard.pending_update uuid now task in
  let w1 := (Dashboard.syncTaskToServer api false uuid now task w).2 in
  let r := syncNow api true w1 in
  let url := "/tasks/" +:+ s in
  outbox w1 = [o]
  /\ net_calls (pass_events w1 r.2) = [Put url (request_body task)]
  /\ mappings r.2 = mappings w
  /\ match (api_put api url (request_body task) (server w)).1 with
     | Some _ =>
         r.1 = ExitCompleted /\ outbox r.2 = [] /\
         tasks r.2 = <[s := JObj (set_field "_id" (JStr s) task)]> (tasks w)
     | None =>
         r.1 = ExitFailed o Rejected /\ outbox r.2 = [o] /\
         tasks r.2 = tasks w
     end.
Proof.
  intros Hout Hc Hm Hs o w1 r url.
  assert (Dashboard.clienteId_or_empty task = c) as Hce.
  { unfold Dashboard.clienteId_or_empty. by rewrite Hc. }
  assert (truthy_id (Some s) = Some s) as Hts by (by apply truthy_id_Some).
  assert (w1 = mkWorld [o] (mappings w) (tasks w) (server w) (trace w)) as Hw1.
  { subst w1. rewrite syncTaskToServer_run. cbv zeta. rewrite Hce, Hm. simpl.
    unfold falsy. rewrite bool_decide_eq_false_2 by done. simpl.
    by rewrite Hout. }
  subst r. rewrite Hw1. clear Hw1 w1.
  split; [done|].
  rewrite (syncNow_single_update
             (mkWorld [o] (mappings w) (tasks w) (server w) (trace w)) o
             eq_refl eq_refl).
  rewrite process_update_run. simpl. rewrite Hce, Hm, Hts. simpl.
  fold url.
  destruct (api_put api url (request_body task) (server w)).1 as [res|].
  - simpl. split.
    { rewrite (pass_events_app _ _
                 (([Processing o; Put url (request_body task)]) ++ [SyncComplete])).
      - done.
      - simpl. by rewrite <- app_assoc. }
    split; [done|]. split; [done|]. split; [|done].
    apply filter_own_id.
  - simpl. split.
    { by rewrite (pass_events_app _ _ [Processing o; Put url (request_body task)]). }
    done.
Qed.

(** X19. An edit made offline on a task whose client id is not mapped, with
    nothing else pending: the next pass drops it without a request. *)
Theorem offline_edit_without_mapping_dropped uuid now task (w : W) :
  outbox w = [] ->
  mappings w !! Dashboard.clienteId_or_empty task = None ->
  let w1 := (Dashboard.syncTaskToServer api false uuid now task w).2 in
  let r := syncNow api true w1 in
  outbox w1 = [Dashboard.pending_update uuid now task]
  /\ r.1 = ExitCompleted
  /\ net_calls (pass_events w1 r.2) = []
  /\ outbox r.2 = []
  /\ mappings r.2 = mappings w /\ tasks r.2 = tasks w
  /\ server r.2 = server w.
Proof.
  intros Hout Hm w1 r.
  set (o := Dashboard.pending_update uuid now task).
  assert (w1 = mkWorld [o] (mappings w) (tasks w) (server w) (trace w)) as Hw1.
  { subst w1. rewrite syncTaskToServer_run. cbv zeta. rewrite Hm, Hout. simpl.
    by destruct (negb _ || _). }
  subst r. rewrite Hw1. clear Hw1 w1.
  split; [done|].
  rewrite (syncNow_single_update
             (mkWorld [o] (mappings w) (tasks w) (server w) (trace w)) o
             eq_refl eq_refl).
  rewrite process_update_run. simpl. rewrite Hm. simpl.
  split; [done|]. split.
  { rewrite (pass_events_app _ _ ([Processing o] ++ [SyncComplete])).
    - done.
    - simpl. by rewrite <- app_assoc. }
  split; [apply filter_own_id|]. done.
Qed.

Lemma removeTask_run online uuid now taskId ui (w : W) :
  Dashboard.removeTask api online uuid now taskId ui w =
  let task := List.find (Dashboard.has_id taskId) (Dashboard.ui_tasks ui) in
  let ui' := Dashboard.mkUi
               (Dashboard.without_id taskId (Dashboard.ui_tasks ui))
               (Dashboard.ui_title ui) (Dashboard.ui_desc ui)
               (Dashboard.ui_statusNew ui) (Dashboard.ui_estimatedHours ui)
               (Dashboard.ui_estimatedMinutes ui) in
  let key := match task with
             | Some t => Dashboard.clienteId_or_empty t
             | None => ""
             end in
  let m := mappings w !! key in
  let id := default taskId m in
  let o := Dashboard.pending_delete uuid now task in
  let cache := base.delete taskId (tasks w) in
  let url := "/tasks/" +:+ id in
  let reply := api_delete api url (server w) in
  let tr := trace w ++ [Delete url] in
  if falsy_opt m && (falsy id || bool_decide (id = "undefined"))
  then (Ok ui', mkWorld (outbox w ++ [o]) (mappings w) cache (server w)
                        (trace w))
  else if online
  then match reply.1 with
       | Some _ => (Ok ui', mkWorld (outbox w) (mappings w) cache reply.2 tr)
       | None =>
           (Ok ui', mkWorld (outbox w ++ [o]) (mappings w) cache reply.2 tr)
       end
  else (Ok ui', mkWorld (outbox w ++ [o]) (mappings w) cache (server w)
                        (trace w)).
Proof.
  unfold Dashboard.removeTask, sync_bind, removeTaskLocal, update_world,
    getMapping, read_world.
  cbv zeta. cbn [fst snd mappings].
  destruct (falsy_opt _ && _); [done|].
  destruct online; [|done].
  unfold sync_catch, sync_bind, del. cbn [server].
  destruct (api_delete api _ (server w)) as [[res|] s']; done.
Qed.


(** X21. A removal made offline of a task whose client id is not mapped (such
    as a task that has none), with nothing else pending: the next pass
    drops the record and the server is never asked to delete the task. *)
Theorem offline_delete_without_mapping_dropped uuid now taskId ui (w : W) :
  outbox w = [] ->
  let task := List.find (Dashboard.has_id taskId) (Dashboard.ui_tasks ui) in
  mappings w !! (match task with
                 | Some t => Dashboard.clienteId_or_empty t
                 | None => ""
                 end) = None ->
  let w1 := (Dashboard.removeTask api false uuid now taskId ui w).2 in
  let r := syncNow api true w1 in
  outbox w1 = [Dashboard.pending_delete uuid now task]
  /\ r.1 = ExitCompleted
  /\ net_calls (pass_events w1 r.2) = []
  /\ outbox r.2 = []
  /\ tasks r.2 = base.delete taskId (tasks w)
  /\ server r.2 = server w.
Proof.
  intros Hout task Hm w1 r.
  set (o := Dashboard.pending_delete uuid now task).
  assert (w1 = mkWorld [o] (mappings w) (base.delete taskId (tasks w))
                       (server w) (trace w)) as Hw1.
  { subst w1. rewrite removeTask_run. cbv zeta. fold task. rewrite Hm, Hout.
    simpl. by destruct (falsy taskId || _). }
  subst r. rewrite Hw1. clear Hw1 w1.
  split; [done|].
  rewrite (syncNow_single_delete
             (mkWorld [o] (mappings w) (base.delete taskId (tasks w))
                      (server w) (trace w)) o eq_refl eq_refl).
  assert (delete_target (mappings w) o = None) as Ht.
  { unfold delete_target, o, Dashboard.pending_delete. simpl.
    destruct (negb _); [by rewrite Hm|done]. }
  rewrite process_delete_run. simpl. rewrite Ht. simpl.
  split; [done|]. split.
  { rewrite (pass_events_app _ _ ([Processing o] ++ [SyncComplete])).
    - done.
    - simpl. by rewrite <- app_assoc. }
  split; [apply filter_own_id|]. done.
Qed.

(** X22. A removal made offline of a task whose client id is mapped: the next
    pass sends the delete to the mapped server id. *)
Theorem offline_delete_replayed uuid now taskId ui t c s (w : W) :
  outbox w = [] ->
  List.find (Dashboard.has_id taskId) (Dashboard.ui_tasks ui) = Some t ->
  field "clienteId" t = JStr c -> c <> "" ->
  mappings w !! c = Some s -> s <> "" ->
  let o := Dashboard.pending_delete uuid now (Some t) in
  let w1 := (Dashboard.removeTask api false uuid now taskId ui w).2 in
  let r := syncNow api true w1 in
  let url := "/tasks/" +:+ s in
  outbox w1 = [o]
  /\ net_calls (pass_events w1 r.2) = [Delete url]
  /\ match (api_delete api url (server w)).1 with
     | Some _ =>
         r.1 = ExitCompleted /\ outbox r.2 = [] /\
         tasks r.2 = base.delete s (base.delete taskId (tasks w))
     | None =>
         r.1 = ExitFailed o Rejected /\ outbox r.2 = [o] /\
         tasks r.2 = base.delete taskId (tasks w)
     end.
Proof.
  intros Hout Hfind Hc Hcne Hm Hs o w1 r url.
  assert (Dashboard.clienteId_or_empty t = c) as Hce.
  { unfold Dashboard.clienteId_or_empty. by rewrite Hc. }
  assert (w1 = mkWorld [o] (mappings w) (base.delete taskId (tasks w))
                       (server w) (trace w)) as Hw1.
  { subst w1. rewrite removeTask_run. cbv zeta. rewrite Hfind, Hce, Hm, Hout.
    simpl. unfold falsy. rewrite bool_decide_eq_false_2 by done. done. }
  subst r. rewrite Hw1. clear Hw1 w1.
  split; [done|].
  rewrite (syncNow_single_delete
             (mkWorld [o] (mappings w) (base.delete taskId (tasks w))
                      (server w) (trace w)) o eq_refl eq_refl).
  assert (delete_target (mappings w) o = Some s) as Ht.
  { apply delete_target_iff. split; [done|]. right. simpl. by rewrite Hce. }
  rewrite process_delete_run. simpl. rewrite Ht. simpl. fold url.
  destruct (api_delete api url (server w)).1 as [res|].
  - simpl. split.
    { rewrite (pass_events_app _ _ ([Processing o; Delete url] ++ [SyncComplete])).
      - done.
      - simpl. by rewrite <- app_assoc. }
    split; [done|]. split; [|done]. apply filter_own_id.
  - simpl. split.
    { by rewrite (pass_events_app _ _ [Processing o; Delete url]). }
    done.
Qed.

Section Add.

Context (trim : string -> string).

Lemma addTask_run online cid uuid iso now ui (w : W) :
  Dashboard.addTask api trim online cid uuid iso now ui w =
  if falsy (trim (Dashboard.ui_title ui)) then (Ok ui, w)
  else
    let task := Dashboard.newTask trim cid iso ui in
    let o := Dashboard.pending_create uuid now cid task in
    let cache := <[cid := JObj task]> (tasks w) in
    let reply := api_post api "/tasks" (Dashboard.add_body task) (server w) in
    let tr := trace w ++ [Post "/tasks" (Dashboard.add_body task)] in
    let queued s' tr' :=
      (Ok (Dashboard.mkUi (task :: Dashboard.ui_tasks ui) "" "" "Pendiente" 0 30),
       mkWorld (outbox w ++ [o]) (mappings w) cache s' tr') in
    if online
    then match reply.1 with
         | Some res =>
             match Dashboard.normalizeTask (response_task res) with
             | Some st =>
                 let sid := Dashboard.task_id st in
                 (Ok (Dashboard.mkUi
                        (st :: Dashboard.without_id cid
                                 (task :: Dashboard.ui_tasks ui))
                        "" "" "Pendiente" 0 30),
                  mkWorld (outbox w) (<[cid := sid]> (mappings w))
                          (<[sid := JObj st]> (base.delete cid cache))
                          reply.2 tr)
             | None => queued reply.2 tr
             end
         | None => queued reply.2 tr
         end
    else queued (server w) (trace w).
Proof.
  unfold Dashboard.addTask.
  destruct (falsy (trim (Dashboard.ui_title ui))); [done|].
  unfold sync_bind, putTaskLocal, update_world. cbv zeta. simpl.
  destruct online; [|done].
  unfold sync_catch, sync_bind, post. cbn [server].
  destruct (api_post api "/tasks" _ (server w)) as [[res|] s']; [|done].
  unfold js_try. cbn [fst snd].
  destruct (Dashboard.normalizeTask (response_task res)) as [st|] eqn:Hst;
    [|done].
  apply Dashboard_normalizeTask_Some in Hst as (id & ti & _ & _ & ->).
  done.
Qed.

(** X23. A task that is added is never lost: it ends up acknowledged by the
    server and mapped, or cached under its client id with a create record
    in the outbox. *)
Theorem addTask_keeps_task online cid uuid iso now ui (w : W) :
  trim (Dashboard.ui_title ui) <> "" ->
  let r := Dashboard.addTask api trim online cid uuid iso now ui w in
  let task := Dashboard.newTask trim cid iso ui in
  exists ui',
    r.1 = Ok ui'
    /\ ((online = true /\
         exists res st t,
           (api_post api "/tasks" (Dashboard.add_body task) (server w)).1
             = Some res /\
           Dashboard.normalizeTask (response_task res) = Some st /\
           normalizeTask (response_task res) = Some t /\
           let sid := _id t in
           outbox r.2 = outbox w /\
           mappings r.2 !! cid = Some sid /\
           tasks r.2 !! sid = Some (JObj st) /\
           Dashboard.ui_tasks ui'
           = st :: Dashboard.without_id cid (Dashboard.ui_tasks ui))
        \/ (outbox r.2
            = outbox w ++ [Dashboard.pending_create uuid now cid task] /\
            mappings r.2 = mappings w /\
            tasks r.2 = <[cid := JObj task]> (tasks w) /\
            Dashboard.ui_tasks ui' = task :: Dashboard.ui_tasks ui /\
            (online = false -> pass_events w r.2 = [] /\ server r.2 = server w))).
Proof.
  intros Ht r task. subst r. rewrite addTask_run.
  unfold falsy. rewrite bool_decide_eq_false_2 by done. cbv zeta. fold task.
  destruct online.
  - destruct (api_post api "/tasks" _ (server w)).1 as [res|] eqn:Hres.
    + destruct (Dashboard.normalizeTask (response_task res)) as [st|] eqn:Hst.
      * destruct (Dashboard_normalizeTask_agrees _ _ Hst) as (t & Hn & Hid & _).
        eexists. split; [done|]. left. split; [done|]. exists res, st, t.
        split; [done|]. split; [done|]. split; [done|].
        cbv zeta. cbn [fst snd mappings tasks outbox Dashboard.ui_tasks].
        rewrite Hid.
        split; [done|]. split; [apply lookup_insert_eq|].
        split; [apply lookup_insert_eq|].
        f_equal. unfold Dashboard.without_id.
        rewrite filter_cons_False; [done|].
        unfold Dashboard.has_id, task, Dashboard.newTask. simpl.
        by rewrite bool_decide_eq_true_2.
      * eexists. split; [done|]. right. simpl. repeat split; try done.
    + eexists. split; [done|]. right. simpl. repeat split; try done.
  - eexists. split; [done|]. right. simpl. repeat split; try done.
    unfold pass_events. simpl. by rewrite drop_all.
Qed.

(** X24. A task added offline, with nothing else pending, and replayed against
    a server that answers the create with a task [normalizeTask] can
    convert, [st], whose id is the server's own: the pass posts the trimmed
    title, the trimmed description and the status, maps the client id to
    that id, replaces the client-keyed cache entry by [st] and completes. *)
Theorem offline_add_then_sync cid uuid iso now ui res st (w : W) :
  outbox w = [] ->
  trim (Dashboard.ui_title ui) <> "" ->
  let task := Dashboard.newTask trim cid iso ui in
  let body := JObj [("title", JStr (trim (Dashboard.ui_title ui)));
                    ("description", JStr (trim (Dashboard.ui_desc ui)));
                    ("status", JStr (Dashboard.ui_statusNew ui))] in
  (api_post api "/tasks" body (server w)).1 = Some res ->
  normalizeTask (response_task res) = Some st ->
  _id st <> "" -> _id st <> cid ->
  let w1 := (Dashboard.addTask api trim false cid uuid iso now ui w).2 in
  let r := syncNow api true w1 in
  outbox w1 = [Dashboard.pending_create uuid now cid task]
  /\ tasks w1 !! cid = Some (JObj task)
  /\ r.1 = ExitCompleted
  /\ net_calls (pass_events w1 r.2) = [Post "/tasks" body]
  /\ outbox r.2 = []
  /\ mappings r.2 = <[cid := _id st]> (mappings w)
  /\ tasks r.2 !! cid = None
  /\ tasks r.2 !! _id st = Some (task_obj st).
Proof.
  intros Hout Ht task body Hres Hst Hne Hnc w1 r.
  set (o := Dashboard.pending_create uuid now cid task).
  assert (w1 = mkWorld [o] (mappings w) (<[cid := JObj task]> (tasks w))
                       (server w) (trace w)) as Hw1.
  { subst w1. rewrite addTask_run.
    unfold falsy. rewrite bool_decide_eq_false_2 by done. cbv zeta.
    by rewrite Hout. }
  subst r. rewrite Hw1. clear Hw1 w1.
  split; [done|]. split; [apply lookup_insert_eq|].
  rewrite (syncNow_single_create
             (mkWorld [o] (mappings w) (<[cid := JObj task]> (tasks w))
                      (server w) (trace w)) o eq_refl eq_refl).
  rewrite (process_create_accepted
             (mkWorld [o] (mappings w) (<[cid := JObj task]> (tasks w))
                      (server w) (trace w)) o task res st eq_refl Hres Hst
             Hne Hnc).
  cbn [fst snd outbox mappings tasks server trace clienteId op_id].
  change (clienteId o) with cid.
  split; [done|]. split.
  { rewrite (pass_events_app _ _
               ([Processing o; Post "/tasks" body] ++ [SyncComplete])).
    - done.
    - simpl. by rewrite <- app_assoc. }
  split; [apply filter_own_id|]. split; [done|].
  split; [by rewrite lookup_insert_ne, lookup_delete_eq|].
  apply lookup_insert_eq.
Qed.

End Add.

End DashboardFacts.

(** X15. The two copies of [normalizeTask] throw on the same inputs; where
    they return, they agree on the six fields they share, and normalizing
    a normalized task, with either copy, changes nothing. *)
Theorem dashboard_normalizeTask_consistent (x : JsValue) :
  (Dashboard.normalizeTask x = None <-> normalizeTask x = None)
  /\ forall st, Dashboard.normalizeTask x = Some st ->
       normalizeTask (JObj st) = normalizeTask x
       /\ Dashboard.normalizeTask (JObj st) = Some st
       /\ exists t,
            normalizeTask x = Some t /\
            forall k, k ∈ ["_id"; "title"; "description"; "status";
                           "clienteId"; "createdAt"] ->
              field k st = opt_get (task_obj t) k.
Proof.
  split.
  { unfold Dashboard.normalizeTask, normalizeTask.
    destruct (js_String (coalesce (opt_get x "_id") (opt_get x "id")));
      [|done]. simpl.
    destruct (js_String (coalesce (opt_get x "title") (JStr sin_titulo)));
      done. }
  intros st Hst.
  destruct (Dashboard_normalizeTask_agrees _ _ Hst) as (t & Hn & _ & Hshared).
  apply Dashboard_normalizeTask_Some in Hst as (id & ti & Hid & Hti & ->).
  pose proof (status_clamp_stable (opt_get x "status")) as Hidem.
  cbv zeta in Hidem.
  split; [|split].
  - rewrite Hn. apply normalizeTask_Some in Hn as (id' & ti' & Hid' & Hti' & ->).
    assert (id' = id) as -> by congruence.
    assert (ti' = ti) as -> by congruence.
    unfold normalizeTask, coalesce. simpl. rewrite Hidem. do 2 f_equal.
    destruct (nullish (opt_get x "description")) eqn:Hd; simpl; [done|].
    by rewrite Hd.
  - unfold Dashboard.normalizeTask, coalesce. simpl. rewrite Hidem.
    repeat f_equal.
    all: destruct (nullish (opt_get x _)) eqn:Hd; simpl; [done|by rewrite Hd].
  - exists t. split; [done|]. exact Hshared.
Qed.

(** X14. Normalizing is idempotent: a normalized task, read back as an object,
    normalizes to itself. *)
Theorem normalizeTask_idempotent (x : JsValue) (t : Task) :
  normalizeTask x = Some t ->
  normalizeTask (task_obj t) = Some t.
Proof.
  intros (id & ti & Hid & Hti & ->)%normalizeTask_Some.
  pose proof (status_clamp_stable (opt_get x "status")) as Hst.
  cbv zeta in Hst.
  unfold normalizeTask, task_obj, coalesce. simpl.
  rewrite Hst. do 2 f_equal.
  destruct (nullish (opt_get x "description")) eqn:Hn; simpl; [done|].
  by rewrite Hn.
Qed.

Lemma normalizeTask_idempotent_witness :
  exists t,
    normalizeTask (JObj [("id", JNum 7); ("status", JStr "Hecha")]) = Some t
    /\ normalizeTask (task_obj t) = Some t.
Proof.
  eexists. split; [vm_compute; reflexivity|].
  apply (normalizeTask_idempotent
           (JObj [("id", JNum 7); ("status", JStr "Hecha")])).
  vm_compute. reflexivity.
Defined.

(* ================================================================== *)
(** ** The theorems above at sample inputs *)
(* ================================================================== *)

Lemma identity_map_frame_witness :
  mappings (syncNow script_api true scenario_world).2 !! "tmp-2"
  = mappings scenario_world !! "tmp-2".
Proof.
  apply (identity_map_frame script_api true scenario_world "tmp-2").
  intros o Ho Hk.
  repeat (apply elem_of_cons in Ho as [->|Ho]; [done|]).
  by apply elem_of_nil in Ho.
Defined.

Lemma identity_map_invariant_witness :
  map_Forall (fun c s => s <> "" /\ s <> c)
             (mappings (syncNow script_api true scenario_world).2).
Proof.
  apply (identity_map_invariant script_api true scenario_world).
  apply map_Forall_empty.
Defined.


Lemma failed_pass_resumes_witness :
  exists pre post,
    replay_order (outbox update_fails_world) = pre ++ update_A :: post /\
    replay_order (outbox (syncNow script_api true update_fails_world).2)
    = update_A :: post.
Proof.
  apply (failed_pass_resumes script_api true update_fails_world
           update_A Rejected).
  - apply (bool_decide_unpack _). vm_compute. exact I.
  - reflexivity.
Defined.

Lemma completed_pass_drains_outbox_witness :
  outbox (syncNow script_api true scenario_world).2 = []
  /\ processed (pass_events scenario_world
                  (syncNow script_api true scenario_world).2)
     ≡ₚ outbox scenario_world.
Proof.
  apply (completed_pass_drains_outbox script_api true scenario_world).
  reflexivity.
Defined.

Lemma second_pass_is_noop_witness :
  (syncNow script_api true (syncNow script_api true scenario_world).2).2
  = (syncNow script_api true scenario_world).2
  /\ (syncNow script_api true (syncNow script_api true scenario_world).2).1
     <> ExitCompleted.
Proof.
  apply (second_pass_is_noop script_api true true scenario_world).
  reflexivity.
Defined.

Lemma update_replay_witness :
  exists ent,
    process_update script_api update_A mapped_world =
    (Ok (),
     mkWorld [] (mappings mapped_world) (<["srv-9" := ent]> (tasks mapped_world))
             []
             [Processing update_A;
              Put "/tasks/srv-9"
                  (request_body [("_id", JStr "tmp-1"); ("title", JStr "A2")])])
    /\ opt_get ent "_id" = JStr "srv-9"
    /\ forall k, k <> "_id" ->
         opt_get ent k = field k [("_id", JStr "tmp-1"); ("title", JStr "A2")].
Proof.
  apply (update_replay script_api mapped_world update_A [] "srv-9"
           [("_id", JStr "tmp-1"); ("title", JStr "A2")]).
  - reflexivity.
  - discriminate.
  - reflexivity.
Defined.

Lemma record_without_payload_witness :
  let w := idle_world in
  let w' := mkWorld (outbox w) (mappings w) (tasks w) (server w)
                    (trace w ++ [Processing create_no_data]) in
  process_create script_api create_no_data w = (Thrown TypeError, w')
  /\ (forall id, mappings w !! clienteId create_no_data = Some id -> id <> "" ->
       process_update script_api create_no_data w = (Thrown TypeError, w')).
Proof.
  apply (record_without_payload script_api idle_world create_no_data).
  reflexivity.
Defined.

Lemma delete_without_refs_discarded_witness :
  process_delete script_api delete_no_refs mapped_world =
  (Ok (),
   mkWorld (filter (fun x => op_id x <> op_id delete_no_refs)
                   (outbox mapped_world))
           (mappings mapped_world) (tasks mapped_world) (server mapped_world)
           (trace mapped_world ++ [Processing delete_no_refs])).
Proof.
  apply (delete_without_refs_discarded script_api mapped_world delete_no_refs).
  - reflexivity.
  - reflexivity.
Defined.

Lemma offline_edit_replayed_witness :
  let o := Dashboard.pending_update "r8" 9 local_task in
  let w1 := (Dashboard.syncTaskToServer script_api false "r8" 9 local_task
               mapped_world).2 in
  let r := syncNow script_api true w1 in
  let url := "/tasks/" +:+ "srv-9" in
  outbox w1 = [o]
  /\ net_calls (pass_events w1 r.2) = [Put url (request_body local_task)]
  /\ mappings r.2 = mappings mapped_world
  /\ match (api_put script_api url (request_body local_task)
              (server mapped_world)).1 with
     | Some _ =>
         r.1 = ExitCompleted /\ outbox r.2 = [] /\
         tasks r.2
         = <["srv-9" := JObj (set_field "_id" (JStr "srv-9") local_task)]>
             (tasks mapped_world)
     | None =>
         r.1 = ExitFailed o Rejected /\ outbox r.2 = [o] /\
         tasks r.2 = tasks mapped_world
     end.
Proof.
  apply (offline_edit_replayed script_api "r8" 9 local_task "tmp-1" "srv-9"
           mapped_world).
  - reflexivity.
  - reflexivity.
  - reflexivity.
  - discriminate.
Defined.

Lemma offline_edit_without_mapping_dropped_witness :
  let w1 := (Dashboard.syncTaskToServer script_api false "r8" 9 server_task
               idle_world).2 in
  let r := syncNow script_api true w1 in
  outbox w1 = [Dashboard.pending_update "r8" 9 server_task]
  /\ r.1 = ExitCompleted
  /\ net_calls (pass_events w1 r.2) = []
  /\ outbox r.2 = []
  /\ mappings r.2 = mappings idle_world /\ tasks r.2 = tasks idle_world
  /\ server r.2 = server idle_world.
Proof.
  apply (offline_edit_without_mapping_dropped script_api "r8" 9 server_task
           idle_world).
  - reflexivity.
  - reflexivity.
Defined.

Lemma offline_delete_without_mapping_dropped_witness :
  let task := List.find (Dashboard.has_id "srv-3") (Dashboard.ui_tasks sample_ui) in
  let w1 := (Dashboard.removeTask script_api false "r9" 9 "srv-3" sample_ui
               idle_world).2 in
  let r := syncNow script_api true w1 in
  outbox w1 = [Dashboard.pending_delete "r9" 9 task]
  /\ r.1 = ExitCompleted
  /\ net_calls (pass_events w1 r.2) = []
  /\ outbox r.2 = []
  /\ tasks r.2 = base.delete "srv-3" (tasks idle_world)
  /\ server r.2 = server idle_world.
Proof.
  apply (offline_delete_without_mapping_dropped script_api "r9" 9 "srv-3"
           sample_ui idle_world).
  - reflexivity.
  - reflexivity.
Defined.

Lemma offline_delete_replayed_witness :
  let o := Dashboard.pending_delete "r9" 9 (Some local_task) in
  let w1 := (Dashboard.removeTask script_api false "r9" 9 "srv-9" sample_ui
               mapped_world).2 in
  let r := syncNow script_api true w1 in
  let url := "/tasks/" +:+ "srv-9" in
  outbox w1 = [o]
  /\ net_calls (pass_events w1 r.2) = [Delete url]
  /\ match (api_delete script_api url (server mapped_world)).1 with
     | Some _ =>
         r.1 = ExitCompleted /\ outbox r.2 = [] /\
         tasks r.2
         = base.delete "srv-9" (base.delete "srv-9" (tasks mapped_world))
     | None =>
         r.1 = ExitFailed o Rejected /\ outbox r.2 = [o] /\
         tasks r.2 = base.delete "srv-9" (tasks mapped_world)
     end.
Proof.
  apply (offline_delete_replayed script_api "r9" 9 "srv-9" sample_ui
           local_task "tmp-1" "srv-9" mapped_world).
  - reflexivity.
  - reflexivity.
  - reflexivity.
  - discriminate.
  - reflexivity.
  - discriminate.
Defined.

Lemma addTask_keeps_task_witness :
  let r := Dashboard.addTask script_api (fun s => s) true "tmp-8" "r10"
             "2024-01-01T00:00:00.000Z" 9 sample_ui idle_world in
  let task := Dashboard.newTask (fun s => s) "tmp-8"
                "2024-01-01T00:00:00.000Z" sample_ui in
  exists ui',
    r.1 = Ok ui'
    /\ ((true = true /\
         exists res st t,
           (api_post script_api "/tasks" (Dashboard.add_body task)
              (server idle_world)).1 = Some res /\
           Dashboard.normalizeTask (response_task res) = Some st /\
           normalizeTask (response_task res) = Some t /\
           let sid := _id t in
           outbox r.2 = outbox idle_world /\
           mappings r.2 !! "tmp-8" = Some sid /\
           tasks r.2 !! sid = Some (JObj st) /\
           Dashboard.ui_tasks ui'
           = st :: Dashboard.without_id "tmp-8" (Dashboard.ui_tasks sample_ui))
        \/ (outbox r.2
            = outbox idle_world
              ++ [Dashboard.pending_create "r10" 9 "tmp-8" task] /\
            mappings r.2 = mappings idle_world /\
            tasks r.2 = <["tmp-8" := JObj task]> (tasks idle_world) /\
            Dashboard.ui_tasks ui' = task :: Dashboard.ui_tasks sample_ui /\
            (true = false ->
             pass_events idle_world r.2 = [] /\ server r.2 = server idle_world))).
Proof.
  apply (addTask_keeps_task script_api (fun s => s) true "tmp-8" "r10"
           "2024-01-01T00:00:00.000Z" 9 sample_ui idle_world).
  discriminate.
Defined.

Lemma offline_add_then_sync_witness :
  let task := Dashboard.newTask (fun s => s) "tmp-8"
                "2024-01-01T00:00:00.000Z" sample_ui in
  let body := JObj [("title", JStr "Nueva"); ("description", JStr "");
                    ("status", JStr "Pendiente")] in
  let st := mkTask "srv-4" sin_titulo (JStr "") (JStr "Pendiente")
                   JUndefined JUndefined in
  let w1 := (Dashboard.addTask script_api (fun s => s) false "tmp-8" "r10"
               "2024-01-01T00:00:00.000Z" 9 sample_ui idle_world).2 in
  let r := syncNow script_api true w1 in
  outbox w1 = [Dashboard.pending_create "r10" 9 "tmp-8" task]
  /\ tasks w1 !! "tmp-8" = Some (JObj task)
  /\ r.1 = ExitCompleted
  /\ net_calls (pass_events w1 r.2) = [Post "/tasks" body]
  /\ outbox r.2 = []
  /\ mappings r.2 = <["tmp-8" := _id st]> (mappings idle_world)
  /\ tasks r.2 !! "tmp-8" = None
  /\ tasks r.2 !! _id st = Some (task_obj st).
Proof.
  apply (offline_add_then_sync script_api (fun s => s) "tmp-8" "r10"
           "2024-01-01T00:00:00.000Z" 9 sample_ui
           (JObj [("_id", JStr "srv-4")])
           (mkTask "srv-4" sin_titulo (JStr "") (JStr "Pendiente")
                   JUndefined JUndefined)
           idle_world).
  - reflexivity.
  - discriminate.
  - reflexivity.
  - reflexivity.
  - discriminate.
  - discriminate.
Defined.
